(** * fastapy: validation and serialisation of FASTA records

    A shallow embedding of [fastapy/fastapy.py] (class [Sequence] and the
    module constants it uses), followed by the properties of its parser
    ([Sequence.validate_fasta]), its renderer ([Sequence._to_fasta],
    [Sequence.split_text]) and its mutating [fasta] property.

    Text.  A Python [str] is a sequence of code points.  The embedding covers
    the texts whose code points are below 256: a character is an [ascii]
    (read as the code point of that number) and a text is a [list ascii].
    [str.upper] leaves that range on two characters (U+00B5, U+00FF) and
    lengthens one (U+00DF), so its result is a list of code points in [N]. *)

From Stdlib Require Import Ascii String NArith ZArith Bool Arith Lia List.
Import ListNotations.

Local Open Scope list_scope.

(** ** Text *)

Definition str := list ascii.

(** A literal of the source, as a text. *)
Definition lit (s : string) : str := list_ascii_of_string s.

Definition ord (c : ascii) : N := N_of_ascii c.

Definition LF : ascii := ascii_of_N 10.
Definition CR : ascii := ascii_of_N 13.

(** [str.join]: the items with [sep] between consecutive ones. *)
Fixpoint join (sep : str) (items : list str) : str :=
  match items with
  | [] => []
  | [x] => x
  | x :: rest => x ++ sep ++ join sep rest
  end.

(** [s.startswith(p)]. *)
Fixpoint startswith (s p : str) {struct p} : bool :=
  match p, s with
  | [], _ => true
  | _ :: _, [] => false
  | a :: p', b :: s' => Ascii.eqb a b && startswith s' p'
  end.

(** [s[lo:hi]], with Python's treatment of negative and out-of-range
    bounds. *)
Definition slice_bound (len i : Z) : Z :=
  let i' := if (i <? 0)%Z then (i + len)%Z else i in
  Z.min len (Z.max 0 i').

Definition slice (s : str) (lo hi : Z) : str :=
  let len := Z.of_nat (length s) in
  let l := slice_bound len lo in
  let h := slice_bound len hi in
  firstn (Z.to_nat (h - l)) (skipn (Z.to_nat l) s).

(** [s[1:]]. *)
Definition slice_from1 (s : str) : str :=
  slice s 1 (Z.of_nat (length s)).

(** Exceptions the embedded code can raise, and the outcome of a call. *)
Inductive exn :=
| ValueError
| AttributeError
| InvalidFastaSequenceException.

Inductive result (A : Type) :=
| Ok (a : A)
| Raise (e : exn).

Arguments Ok {A} a.
Arguments Raise {A} e.

Definition bind {A B} (r : result A) (k : A -> result B) : result B :=
  match r with
  | Ok a => k a
  | Raise e => Raise e
  end.

Notation "x <- r ;; k" := (bind r (fun x => k))
  (at level 61, r at next level, right associativity).

(** [range(0, stop, step)]: a zero step raises [ValueError]; the number of
    items is computed the way CPython does. *)
Definition range_length (lo hi step : Z) : Z :=
  if (lo <? hi)%Z then (1 + (hi - 1 - lo) / step)%Z else 0%Z.

Definition range0 (stop step : Z) : result (list Z) :=
  if (step =? 0)%Z then Raise ValueError
  else
    let n := if (0 <? step)%Z then range_length 0 stop step
             else range_length stop 0 (- step) in
    Ok (map (fun k => (Z.of_nat k * step)%Z) (seq 0 (Z.to_nat n))).

(** *** [str.splitlines]

    The line boundaries below code point 256.  (U+2028 and U+2029 are
    boundaries too, and lie outside the embedded range.) *)
Definition is_linebreak (c : ascii) : bool :=
  let n := ord c in
  (n =? 10)%N || (n =? 11)%N || (n =? 12)%N || (n =? 13)%N ||
  (n =? 28)%N || (n =? 29)%N || (n =? 30)%N || (n =? 133)%N.

(** The scan of one line: [cur] holds the characters of the line read so
    far.  A boundary ends the line; carriage return followed by line feed
    is one boundary; nothing is emitted after the last boundary when the
    text ends there. *)
Fixpoint scan_lines (cur : str) (s : str) : list str :=
  match s with
  | [] => [cur]
  | c :: s' =>
      if is_linebreak c then
        cur ::
        match s' with
        | [] => []
        | d :: s'' =>
            if Ascii.eqb c CR && Ascii.eqb d LF then
              match s'' with
              | [] => []
              | _ :: _ => scan_lines [] s''
              end
            else scan_lines [] s'
        end
      else scan_lines (cur ++ [c]) s'
  end.

Definition splitlines (s : str) : list str :=
  match s with
  | [] => []
  | _ :: _ => scan_lines [] s
  end.

(** *** [str.upper], [str.maketrans], [str.translate] *)

(** The upper-case mapping of one character: a-z and the accented small
    letters move down by 32, U+00DF becomes "SS", U+00B5 becomes U+039C and
    U+00FF becomes U+0178; every other character is its own upper case. *)
Definition upper_char (c : ascii) : list N :=
  let n := ord c in
  if ((97 <=? n) && (n <=? 122))%N then [(n - 32)%N]
  else if (n =? 181)%N then [924%N]
  else if (n =? 223)%N then [83%N; 83%N]
  else if ((224 <=? n) && (n <=? 254) && negb (n =? 247))%N then [(n - 32)%N]
  else if (n =? 255)%N then [376%N]
  else [n].

Definition upper (s : str) : list N := flat_map upper_char s.

(** A translation table: a dict from code points to a replacement, [None]
    meaning deletion. *)
Definition table := list (N * option N).

(** [str.maketrans({ord(c): None for c in chars})]. *)
Definition delchars (chars : str) : table :=
  map (fun c => (ord c, None)) chars.

Fixpoint table_get (t : table) (k : N) : option (option N) :=
  match t with
  | [] => None
  | (k', v) :: t' => if (k =? k')%N then Some v else table_get t' k
  end.

(** [s.translate(t)]: a code point the table lacks is kept. *)
Fixpoint translate (s : list N) (t : table) : list N :=
  match s with
  | [] => []
  | c :: s' =>
      match table_get t c with
      | None => c :: translate s' t
      | Some None => translate s' t
      | Some (Some r) => r :: translate s' t
      end
  end.

(** ** Module constants (lines 5-13) *)

Definition LINE_LENGTH : Z := 80.
Definition ENTRY_DELIM_CHAR : str := lit ">".
Definition HEADER_SEP_CHAR : str := lit "|".

Definition VALID_NUCLEIC_ACIDS : str := lit "ACGTNUKSYMWRBDHV-".
Definition VALID_AMINO_ACIDS : str := lit "APBQCRDSETFUGVHWIYKZLXMN*-".

Definition NUCLEIC_DELCHARS : table := delchars VALID_NUCLEIC_ACIDS.
Definition AA_DELCHARS : table := delchars VALID_AMINO_ACIDS.

(** [os.linesep] on the two families of platforms Python runs on. *)
Inductive platform := Posix | Windows.

Definition linesep (os : platform) : str :=
  match os with
  | Posix => [LF]
  | Windows => [CR; LF]
  end.

(** ** class Sequence (lines 58-131) *)

Record Sequence := {
  header : str;
  sequence : str;
  _fasta : option str
}.

(** [Sequence(header, sequence)] (lines 61-65). *)
Definition __init__ (header sequence : str) : Sequence :=
  {| header := header; sequence := sequence; _fasta := None |}.

(** The generator of line 98: the pieces [string[i:i + line_length]] for
    [i] in [range(0, len(string), line_length)]. *)
Definition split_text_chunks (string : str) (line_length : Z)
  : result (list str) :=
  idx <- range0 (Z.of_nat (length string)) line_length ;;
  Ok (map (fun i => slice string i (i + line_length)) idx).

(** [Sequence.split_text] (lines 95-98); the defaults of [join_char] and
    [line_length] are supplied by the caller. *)
Definition split_text (string join_char : str) (line_length : Z)
  : result str :=
  chunks <- split_text_chunks string line_length ;;
  Ok (join join_char chunks).

(** [Sequence._to_fasta] (lines 85-93). *)
Definition _to_fasta (os : platform) (self : Sequence) : result str :=
  let header := ENTRY_DELIM_CHAR ++ header self in
  sequence <- split_text (sequence self) (linesep os) LINE_LENGTH ;;
  Ok (header ++ [LF] ++ sequence).

(** The nested [validate_sequence] (lines 116-118). *)
Definition validate_sequence (sequence : str) (valid_chars : table) : bool :=
  (length (translate (upper sequence) valid_chars) =? 0)%nat.

(** [Sequence.validate_fasta] (lines 100-125); [None] is the [False] it
    returns for a text that is not a record. *)
Definition validate_fasta (entry : str) : option Sequence :=
  let lines := splitlines entry in
  if (length lines <? 2)%nat then None
  else
    match lines with
    | [] => None
    | line0 :: rest =>
        if negb (startswith line0 ENTRY_DELIM_CHAR) then None
        else
          let header := slice_from1 line0 in
          let sequence := join [] rest in
          if validate_sequence sequence NUCLEIC_DELCHARS
             || validate_sequence sequence AA_DELCHARS
          then Some (__init__ header sequence)
          else None
    end.

(** *** The [fasta] property

    The getter and the setter act on the object: each takes the state of
    [self] and returns the outcome of the call with the state it leaves. *)

(** Getter (lines 67-72). *)
Definition fasta (os : platform) (self : Sequence)
  : result str * Sequence :=
  match _fasta self with
  | None =>
      match _to_fasta os self with
      | Ok t =>
          (Ok t, {| header := header self; sequence := sequence self;
                    _fasta := Some t |})
      | Raise e => (Raise e, self)
      end
  | Some t => (Ok t, self)
  end.

(** The static methods of class Sequence that take a text and return a
    Sequence or [False], by name.  The class defines [__init__], [fasta],
    [_to_fasta], [split_text], [validate_fasta] and [__repr__]; its
    instances add [header], [sequence] and [_fasta]. *)
Definition Sequence_parsers : list (string * (str -> option Sequence)) :=
  [("validate_fasta"%string, validate_fasta)].

Fixpoint getattr {A} (ns : list (string * A)) (name : string) : option A :=
  match ns with
  | [] => None
  | (n, a) :: ns' => if String.eqb n name then Some a else getattr ns' name
  end.

(** Setter (lines 74-83).  Line 77 looks up the attribute [validate] on
    [self]; a name that is not found raises [AttributeError]. *)
Definition fasta_setter_via (validate : option (str -> option Sequence))
  (self : Sequence) (fasta_sequence : str) : result unit * Sequence :=
  match validate with
  | None => (Raise AttributeError, self)
  | Some validate =>
      match validate fasta_sequence with
      | None => (Raise InvalidFastaSequenceException, self)
      | Some parsed =>
          (Ok tt, {| header := header parsed; sequence := sequence parsed;
                     _fasta := _fasta self |})
      end
  end.

Definition fasta_setter (self : Sequence) (fasta_sequence : str)
  : result unit * Sequence :=
  fasta_setter_via (getattr Sequence_parsers "validate") self fasta_sequence.

(** ** The two alphabets, as the sets of code points they list *)

Definition nucleic_alphabet : list N :=
  map ord
    ["A"; "C"; "G"; "T"; "N"; "U"; "K"; "S"; "Y"; "M"; "W"; "R"; "B"; "D";
     "H"; "V"; "-"]%char.

Definition amino_alphabet : list N :=
  map ord
    ["A"; "P"; "B"; "Q"; "C"; "R"; "D"; "S"; "E"; "T"; "F"; "U"; "G"; "V";
     "H"; "W"; "I"; "Y"; "K"; "Z"; "L"; "X"; "M"; "N"; "*"; "-"]%char.

(** Every code point of the upper case of every character of [s] is in
    [alphabet]. *)
Definition pure (alphabet : list N) (s : str) : Prop :=
  Forall (fun c => Forall (fun u => In u alphabet) (upper_char c)) s.

(** A text has no line boundary in it. *)
Definition unbroken (s : str) : Prop :=
  Forall (fun c => is_linebreak c = false) s.

(** ** Notions the properties are stated with *)

(** The test of line 122. *)
Definition alphabet_ok (s : str) : bool :=
  validate_sequence s NUCLEIC_DELCHARS || validate_sequence s AA_DELCHARS.

(** Every code point of [l] is in [alphabet], as a boolean. *)
Definition all_in (alphabet : list N) (l : list N) : bool :=
  forallb (fun u => existsb (N.eqb u) alphabet) l.

(** The number of items of [range(0, len, w)] for a positive [w]. *)
Definition count (len w : nat) : nat :=
  match len with
  | O => O
  | S m => S (m / w)
  end.

(** The pieces of width [w] starting at the first [n] multiples of [w]. *)
Definition pieces (s : str) (w n : nat) : list str :=
  map (fun k => firstn w (skipn (k * w) s)) (seq 0 n).

(** What it is for [chunks] to be the text [s] wrapped at width [w]: the
    chunks are consecutive pieces of [s], each but the last has exactly [w]
    characters, the last has between 1 and [w], and an empty text has no
    chunk. *)
Definition wrapped (s : str) (w : nat) (chunks : list str) : Prop :=
  concat chunks = s
  /\ (forall i, (S i < length chunks)%nat -> length (nth i chunks []) = w)
  /\ (chunks <> [] ->
      (1 <= length (last chunks []) <= w)%nat)
  /\ (s = [] -> chunks = []).

(** *** The line splitting the specification describes

    Written from the specification's words, for comparison with
    [splitlines]: a line ends at a line feed, or at a carriage return that
    a line feed follows, and nowhere else. *)
Fixpoint scan_universal (cur : str) (s : str) : list str :=
  match s with
  | [] => [cur]
  | c :: s' =>
      if Ascii.eqb c LF then
        cur :: match s' with
               | [] => []
               | _ :: _ => scan_universal [] s'
               end
      else
        match s' with
        | [] => [cur ++ [c]]
        | d :: s'' =>
            if Ascii.eqb c CR && Ascii.eqb d LF then
              cur :: match s'' with
                     | [] => []
                     | _ :: _ => scan_universal [] s''
                     end
            else scan_universal (cur ++ [c]) s'
        end
  end.

Definition split_universal (s : str) : list str :=
  match s with
  | [] => []
  | _ :: _ => scan_universal [] s
  end.

(** The only line boundaries of [s] are line feeds and carriage returns
    that a line feed follows. *)
Fixpoint only_universal (s : str) : bool :=
  match s with
  | [] => true
  | c :: s' =>
      (negb (is_linebreak c)
       || Ascii.eqb c LF
       || (Ascii.eqb c CR
           && match s' with
              | [] => false
              | d :: _ => Ascii.eqb d LF
              end))
      && only_universal s'
  end.

(** ** class FastaFile (lines 28-55) and the module functions (lines 16-25)

    [read_file] and [write_file] build a [FastaFile] for the name and call
    its [read] and [write].  The file itself is outside the embedding:
    [FastaFile_read] is given the text that [f.read()] returns, and
    [FastaFile_write] yields the text handed to [f.writelines]. *)

(** [s.split(sep)]: the pieces between the occurrences of [sep], found
    from the left and not overlapping; an empty separator raises
    [ValueError].  [skip] counts the characters of a separator just found
    that are still to be passed. *)
Fixpoint split_scan (sep : str) (skip : nat) (cur : str) (s : str)
  : list str :=
  match s with
  | [] => [cur]
  | c :: s' =>
      match skip with
      | S k => split_scan sep k cur s'
      | O =>
          if startswith s sep
          then cur :: split_scan sep (length sep - 1) [] s'
          else split_scan sep 0 (cur ++ [c]) s'
      end
  end.

Definition split (s sep : str) : result (list str) :=
  match sep with
  | [] => Raise ValueError
  | _ :: _ => Ok (split_scan sep 0 [] s)
  end.

(** The truth value of a text, by which [filter(None, ...)] keeps or
    drops it. *)
Definition truthy (s : str) : bool :=
  match s with
  | [] => false
  | _ :: _ => true
  end.

(** [FastaFile.read] (lines 35-41), from the text read. *)
Definition FastaFile_read (text : str) : result (list (option Sequence)) :=
  data <- split text ENTRY_DELIM_CHAR ;;
  let raw := filter truthy data in
  Ok (map (fun f => validate_fasta (ENTRY_DELIM_CHAR ++ f)) raw).

(** The generator of line 50: [seq.fasta + '\n'] for each record in turn,
    with the state every record is left in.  The list gives each record as
    it is when the call starts; a record listed twice is met the second
    time with the cache its first access left, which yields the same
    text. *)
Fixpoint fasta_lines (os : platform) (sequences : list Sequence)
  : result (list str) * list Sequence :=
  match sequences with
  | [] => (Ok [], [])
  | seq :: rest =>
      match fasta os seq with
      | (Raise e, seq') => (Raise e, seq' :: rest)
      | (Ok t, seq') =>
          match fasta_lines os rest with
          | (Ok ls, rest') => (Ok ((t ++ [LF]) :: ls), seq' :: rest')
          | (Raise e, rest') => (Raise e, seq' :: rest')
          end
      end
  end.

(** [FastaFile.write] (lines 43-50): a single record is taken as the list
    of that record; the text is what [writelines] is given, item after
    item. *)
Definition FastaFile_write (os : platform)
  (sequences : Sequence + list Sequence) : result str * list Sequence :=
  let sequences :=
    match sequences with
    | inl one => [one]
    | inr many => many
    end in
  match fasta_lines os sequences with
  | (Ok ls, after) => (Ok (concat ls), after)
  | (Raise e, after) => (Raise e, after)
  end.

(** *** Text mode

    Both files are opened in text mode with the default [newline]: on
    writing every line feed becomes [os.linesep]; on reading every
    carriage return-line feed pair and every other carriage return becomes
    a line feed. *)
Definition text_mode_write (os : platform) (s : str) : str :=
  flat_map (fun c => if Ascii.eqb c LF then linesep os else [c]) s.

Fixpoint text_mode_read (s : str) : str :=
  match s with
  | [] => []
  | c :: s' =>
      if Ascii.eqb c CR then
        LF :: match s' with
              | [] => []
              | d :: s'' =>
                  if Ascii.eqb d LF then text_mode_read s''
                  else text_mode_read s'
              end
      else c :: text_mode_read s'
  end.

(** What separates the chunks of a record once its rendering has been
    written and read back in text mode: [os.linesep] itself has its line
    feed translated on the way out. *)
Definition linesep_read_back (os : platform) : str :=
  text_mode_read (text_mode_write os (linesep os)).

(** The text [_to_fasta] returns for a record, and the block that a record
    written to a file is when the file is read back: the rendering without
    its '>', with the chunks separated as [linesep_read_back] says and the
    line feed that [write] puts after it. *)
Definition rendering (os : platform) (r : Sequence) : str :=
  ENTRY_DELIM_CHAR ++ header r ++ [LF]
    ++ join (linesep os)
         (pieces (sequence r) 80 (count (length (sequence r)) 80)).

Definition block_read_back (os : platform) (r : Sequence) : str :=
  header r ++ [LF]
    ++ join (linesep_read_back os)
         (pieces (sequence r) 80 (count (length (sequence r)) 80))
    ++ [LF].

(** A record that can be written and read back: nothing cached, a header
    without line boundary and without '>', residues of one alphabet. *)
Definition writable (r : Sequence) : Prop :=
  _fasta r = None
  /\ unbroken (header r)
  /\ ~ In ">"%char (header r)
  /\ (pure nucleic_alphabet (sequence r) \/ pure amino_alphabet (sequence r)).

(** The text that comes after a line boundary [b], given the text [c]
    that follows the character [b]: a line feed right after a carriage
    return belongs to the boundary. *)
Definition after_boundary (b : ascii) (c : str) : str :=
  match c with
  | [] => []
  | d :: t => if Ascii.eqb b CR && Ascii.eqb d LF then t else c
  end.

(** * Properties *)

(** ** Translation tables *)

Lemma table_get_delchars_in (chars : str) (k : N) :
  In k (map ord chars) -> table_get (delchars chars) k = Some None.
Proof.
  induction chars as [|c chars IH]; simpl; intros Hin.
  - contradiction.
  - destruct (N.eqb_spec k (ord c)) as [_|Hne]; [reflexivity|].
    apply IH. destruct Hin as [Heq|Hin]; [congruence|exact Hin].
Qed.

Lemma table_get_delchars_out (chars : str) (k : N) :
  ~ In k (map ord chars) -> table_get (delchars chars) k = None.
Proof.
  induction chars as [|c chars IH]; simpl; intros Hout.
  - reflexivity.
  - destruct (N.eqb_spec k (ord c)) as [Heq|_].
    + exfalso. apply Hout. left. congruence.
    + apply IH. intros Hin. apply Hout. right. exact Hin.
Qed.

Lemma in_codes_dec (l : list N) (k : N) : {In k l} + {~ In k l}.
Proof. apply in_dec, N.eq_dec. Qed.

(** Deleting the characters of [chars] leaves nothing exactly when nothing
    else was there. *)
Lemma translate_delchars_empty (chars : str) (s : list N) :
  length (translate s (delchars chars)) = 0%nat <->
  Forall (fun u => In u (map ord chars)) s.
Proof.
  induction s as [|c s IH]; simpl.
  - split; [constructor|reflexivity].
  - destruct (in_codes_dec (map ord chars) c) as [Hin|Hout].
    + rewrite (table_get_delchars_in _ _ Hin), IH. split.
      * intros H. constructor; assumption.
      * intros H. inversion H; assumption.
    + rewrite (table_get_delchars_out _ _ Hout). simpl. split.
      * discriminate.
      * intros H. inversion H; contradiction.
Qed.

Lemma validate_sequence_spec (chars : str) (s : str) :
  validate_sequence s (delchars chars) = true <-> pure (map ord chars) s.
Proof.
  unfold validate_sequence, pure, upper.
  rewrite Nat.eqb_eq, translate_delchars_empty, Forall_flat_map.
  reflexivity.
Qed.

Lemma nucleic_codes : map ord VALID_NUCLEIC_ACIDS = nucleic_alphabet.
Proof. reflexivity. Qed.

Lemma amino_codes : map ord VALID_AMINO_ACIDS = amino_alphabet.
Proof. reflexivity. Qed.

Lemma validate_nucleic (s : str) :
  validate_sequence s NUCLEIC_DELCHARS = true <-> pure nucleic_alphabet s.
Proof.
  unfold NUCLEIC_DELCHARS. rewrite validate_sequence_spec, nucleic_codes.
  reflexivity.
Qed.

Lemma validate_amino (s : str) :
  validate_sequence s AA_DELCHARS = true <-> pure amino_alphabet s.
Proof.
  unfold AA_DELCHARS. rewrite validate_sequence_spec, amino_codes.
  reflexivity.
Qed.

(** C7.  The nucleic-acid test (line 122, first call of
    [validate_sequence]) answers true exactly when every character of the
    text, upper-cased, is one of A C G T N U K S Y M W R B D H V -, and the
    amino-acid test (second call) exactly when it is one of
    A P B Q C R D S E T F U G V H W I Y K Z L X M N * -; both answer true on
    the empty text, and both are total: they yield a boolean on every
    text. *)
Theorem alphabet_tests_characterised (s : str) :
  (validate_sequence s NUCLEIC_DELCHARS = true <->
   Forall (fun c => Forall (fun u => In u nucleic_alphabet) (upper_char c)) s)
  /\ (validate_sequence s AA_DELCHARS = true <->
      Forall (fun c => Forall (fun u => In u amino_alphabet) (upper_char c)) s)
  /\ validate_sequence [] NUCLEIC_DELCHARS = true
  /\ validate_sequence [] AA_DELCHARS = true
  /\ (exists b, validate_sequence s NUCLEIC_DELCHARS = b)
  /\ (exists b, validate_sequence s AA_DELCHARS = b).
Proof.
  split; [apply validate_nucleic|].
  split; [apply validate_amino|].
  split; [reflexivity|].
  split; [reflexivity|].
  split; eexists; reflexivity.
Qed.

(** The nucleic-acid test on "acgu-", in lower case, and the amino-acid
    test on "ACGJ", J being in neither alphabet. *)
Lemma alphabet_tests_characterised_witness :
  validate_sequence (lit "acgu-") NUCLEIC_DELCHARS = true
  /\ pure nucleic_alphabet (lit "acgu-")
  /\ ~ pure amino_alphabet (lit "ACGJ").
Proof.
  destruct (alphabet_tests_characterised (lit "acgu-")) as [Hn _].
  destruct (alphabet_tests_characterised (lit "ACGJ")) as [_ [Ha _]].
  split; [reflexivity|].
  split.
  - apply Hn. reflexivity.
  - intros Hp. apply Ha in Hp. discriminate Hp.
Defined.

(** ** Slices and ranges *)

Lemma firstn_plus {A} (a b : nat) (l : list A) :
  firstn (a + b) l = firstn a l ++ firstn b (skipn a l).
Proof.
  revert l. induction a as [|a IH]; intros l; simpl.
  - reflexivity.
  - destruct l as [|x l]; simpl.
    + rewrite firstn_nil. reflexivity.
    + rewrite IH. reflexivity.
Qed.

(** Between bounds that are in order and not negative, a slice is a prefix
    of a suffix. *)
Lemma slice_nonneg (s : str) (lo hi : Z) :
  (0 <= lo <= hi)%Z ->
  slice s lo hi = firstn (Z.to_nat (hi - lo)) (skipn (Z.to_nat lo) s).
Proof.
  intros Hb. unfold slice, slice_bound.
  destruct (Z.ltb_spec lo 0) as [Hneg|_]; [lia|].
  destruct (Z.ltb_spec hi 0) as [Hneg|_]; [lia|].
  destruct (Z_lt_le_dec lo (Z.of_nat (length s))) as [Hin|Hout].
  - replace (Z.min (Z.of_nat (length s)) (Z.max 0 lo)) with lo by lia.
    destruct (Z_le_gt_dec hi (Z.of_nat (length s))) as [Hhi|Hhi].
    + replace (Z.min (Z.of_nat (length s)) (Z.max 0 hi)) with hi by lia.
      reflexivity.
    + replace (Z.min (Z.of_nat (length s)) (Z.max 0 hi))
        with (Z.of_nat (length s)) by lia.
      rewrite !firstn_all2; [reflexivity| |]; rewrite length_skipn; lia.
  - replace (Z.min (Z.of_nat (length s)) (Z.max 0 lo))
      with (Z.of_nat (length s)) by lia.
    replace (Z.min (Z.of_nat (length s)) (Z.max 0 hi))
      with (Z.of_nat (length s)) by lia.
    rewrite Z.sub_diag. simpl.
    rewrite (skipn_all2 s) by lia. rewrite firstn_nil. reflexivity.
Qed.

Lemma slice_from1_cons (c : ascii) (s : str) : slice_from1 (c :: s) = s.
Proof.
  unfold slice_from1. rewrite slice_nonneg by (simpl length; lia).
  change (Z.to_nat 1) with 1%nat. simpl skipn.
  apply firstn_all2. simpl length. lia.
Qed.

Lemma range_length_count (len w : nat) :
  (0 < w)%nat ->
  Z.to_nat (range_length 0 (Z.of_nat len) (Z.of_nat w)) = count len w.
Proof.
  intros Hw. unfold range_length, count.
  destruct len as [|m].
  - reflexivity.
  - destruct (Z.ltb_spec 0 (Z.of_nat (S m))) as [_|Hle]; [|lia].
    replace (Z.of_nat (S m) - 1 - 0)%Z with (Z.of_nat m) by lia.
    rewrite <- Nat2Z.inj_div. lia.
Qed.

Lemma count_covers (len w : nat) : (0 < w)%nat -> (len <= count len w * w)%nat.
Proof.
  intros Hw. destruct len as [|m]; simpl; [lia|].
  pose proof (Nat.mul_succ_div_gt m w ltac:(lia)) as H. lia.
Qed.

Lemma count_tight (len w : nat) :
  (0 < w)%nat -> (0 < len)%nat -> (pred (count len w) * w < len)%nat.
Proof.
  intros Hw Hl. destruct len as [|m]; simpl; [lia|].
  pose proof (Nat.Div0.mul_div_le m w) as H. lia.
Qed.

(** ** Wrapping *)

Lemma split_text_chunks_pieces (s : str) (w : Z) :
  (1 <= w)%Z ->
  split_text_chunks s w
  = Ok (pieces s (Z.to_nat w) (count (length s) (Z.to_nat w))).
Proof.
  intros Hw. unfold split_text_chunks, range0.
  destruct (Z.eqb_spec w 0) as [H0|_]; [lia|].
  destruct (Z.ltb_spec 0 w) as [_|Hle]; [|lia].
  simpl bind. f_equal.
  rewrite <- (Z2Nat.id w) at 1 by lia.
  rewrite range_length_count by lia.
  unfold pieces. rewrite map_map. apply map_ext. intros k.
  rewrite slice_nonneg by nia.
  f_equal; [f_equal; lia|f_equal; nia].
Qed.

Lemma concat_pieces (s : str) (w n : nat) :
  concat (pieces s w n) = firstn (n * w) s.
Proof.
  unfold pieces. induction n as [|n IH].
  - reflexivity.
  - rewrite seq_S, map_app, concat_app, IH. simpl.
    rewrite app_nil_r, <- firstn_plus. f_equal. lia.
Qed.

Lemma length_pieces (s : str) (w n : nat) : length (pieces s w n) = n.
Proof. unfold pieces. rewrite length_map, length_seq. reflexivity. Qed.

Lemma nth_pieces (s : str) (w n i : nat) :
  (i < n)%nat -> nth i (pieces s w n) [] = firstn w (skipn (i * w) s).
Proof.
  intros Hi. unfold pieces.
  rewrite (nth_indep _ [] (firstn w (skipn (0 * w) s)))
    by (rewrite length_map, length_seq; exact Hi).
  rewrite (map_nth (fun k => firstn w (skipn (k * w) s))).
  rewrite seq_nth by exact Hi. reflexivity.
Qed.

Lemma last_pieces (s : str) (w n : nat) :
  last (pieces s w (S n)) [] = firstn w (skipn (n * w) s).
Proof.
  unfold pieces. rewrite seq_S, map_app. simpl map. apply last_last.
Qed.

Lemma pieces_wrapped (s : str) (w : nat) :
  (0 < w)%nat -> wrapped s w (pieces s w (count (length s) w)).
Proof.
  intros Hw. unfold wrapped.
  pose proof (count_covers (length s) w Hw) as Hcov.
  split; [|split; [|split]].
  - rewrite concat_pieces. apply firstn_all2. exact Hcov.
  - intros i Hi. rewrite length_pieces in Hi.
    rewrite nth_pieces by lia.
    rewrite length_firstn, length_skipn.
    assert (Hl : (0 < length s)%nat) by (destruct s; simpl in *; lia).
    pose proof (count_tight (length s) w Hw Hl) as Ht.
    assert (S i * w <= pred (count (length s) w) * w)%nat
      by (apply Nat.mul_le_mono_r; lia).
    simpl in *. lia.
  - intros Hne.
    assert (Hl : (0 < length s)%nat).
    { destruct s; [exfalso; apply Hne; reflexivity|simpl; lia]. }
    pose proof (count_tight (length s) w Hw Hl) as Ht.
    assert (Hc : (0 < count (length s) w)%nat)
      by (destruct (length s); simpl in *; lia).
    destruct (count (length s) w) as [|n] eqn:En; [lia|].
    rewrite last_pieces, length_firstn, length_skipn.
    simpl in Ht. lia.
  - intros ->. reflexivity.
Qed.

Lemma split_text_join (s sep : str) (w : Z) (chunks : list str) :
  split_text_chunks s w = Ok chunks ->
  split_text s sep w = Ok (join sep chunks).
Proof. intros H. unfold split_text. rewrite H. reflexivity. Qed.

Lemma split_text_chunks_wrapped (s : str) (w : Z) :
  (1 <= w)%Z ->
  exists chunks,
    split_text_chunks s w = Ok chunks /\ wrapped s (Z.to_nat w) chunks.
Proof.
  intros Hw. eexists. split.
  - apply split_text_chunks_pieces. exact Hw.
  - apply pieces_wrapped. lia.
Qed.

(** C10.  For a width of at least 1, the chunks that [split_text] joins,
    taken in order without the separator, make up the text again: no
    character is dropped, repeated or moved, whatever the characters
    are. *)
Theorem split_text_chunks_concat (s : str) (w : Z) (Hw : (1 <= w)%Z) :
  exists chunks,
    split_text_chunks s w = Ok chunks
    /\ (forall sep, split_text s sep w = Ok (join sep chunks))
    /\ concat chunks = s.
Proof.
  destruct (split_text_chunks_wrapped s w Hw) as [chunks [Hc Hwr]].
  exists chunks. split; [exact Hc|]. split.
  - intros sep. apply split_text_join. exact Hc.
  - apply Hwr.
Qed.

Lemma split_text_chunks_concat_witness :
  (1 <= 3)%Z
  /\ exists chunks,
       split_text_chunks (lit "ACGTJ!x") 3 = Ok chunks
       /\ (forall sep, split_text (lit "ACGTJ!x") sep 3 = Ok (join sep chunks))
       /\ concat chunks = lit "ACGTJ!x".
Proof.
  split; [lia|]. apply (split_text_chunks_concat (lit "ACGTJ!x") 3). lia.
Defined.

Lemma to_fasta_chunks (os : platform) (r : Sequence) (chunks : list str) :
  split_text_chunks (sequence r) LINE_LENGTH = Ok chunks ->
  _to_fasta os r
  = Ok (ENTRY_DELIM_CHAR ++ header r ++ [LF] ++ join (linesep os) chunks).
Proof.
  intros H. unfold _to_fasta.
  rewrite (split_text_join _ _ _ _ H). reflexivity.
Qed.

(** C8.  Rendering wraps the residues into consecutive chunks of exactly
    the line width, only the last one possibly shorter, and none for empty
    residues: so does [split_text] at every width of at least 1, and so
    does [_to_fasta], whose width is [LINE_LENGTH] = 80, on every record;
    residues of length 85 are rendered as two lines of 80 and 5
    characters. *)
Theorem render_wraps (os : platform) (r : Sequence) (w : Z)
  (Hw : (1 <= w)%Z) :
  (exists chunks,
      split_text_chunks (sequence r) w = Ok chunks
      /\ split_text (sequence r) (linesep os) w
         = Ok (join (linesep os) chunks)
      /\ wrapped (sequence r) (Z.to_nat w) chunks)
  /\ (exists chunks,
         split_text_chunks (sequence r) LINE_LENGTH = Ok chunks
         /\ _to_fasta os r
            = Ok (ENTRY_DELIM_CHAR ++ header r ++ [LF]
                    ++ join (linesep os) chunks)
         /\ wrapped (sequence r) 80 chunks
         /\ (length (sequence r) = 85%nat ->
             map (@length ascii) chunks = [80%nat; 5%nat])).
Proof.
  split.
  - destruct (split_text_chunks_wrapped (sequence r) w Hw) as [c [Hc Hwr]].
    exists c. split; [exact Hc|]. split; [|exact Hwr].
    apply split_text_join. exact Hc.
  - pose proof (split_text_chunks_pieces (sequence r) LINE_LENGTH
                  ltac:(unfold LINE_LENGTH; lia)) as Hc.
    change (Z.to_nat LINE_LENGTH) with 80%nat in Hc.
    eexists. split; [exact Hc|]. split; [|split].
    + apply to_fasta_chunks. exact Hc.
    + apply pieces_wrapped. lia.
    + intros H85. rewrite H85.
      change (count 85 80) with 2%nat. unfold pieces. cbn [seq map].
      rewrite !length_firstn, !length_skipn, H85. reflexivity.
Qed.

Lemma render_wraps_witness :
  (1 <= 80)%Z
  /\ exists chunks,
       split_text_chunks (repeat "A"%char 85) LINE_LENGTH = Ok chunks
       /\ map (@length ascii) chunks = [80%nat; 5%nat].
Proof.
  split; [lia|].
  destruct (render_wraps Posix (__init__ (lit "h") (repeat "A"%char 85)) 80
              ltac:(lia)) as [_ [chunks [Hc [_ [_ H85]]]]].
  exists chunks. split; [exact Hc|]. apply H85. reflexivity.
Defined.

(** ** The parser *)

Lemma join_nil (items : list str) : join [] items = concat items.
Proof.
  induction items as [|x [|y rest] IH].
  - reflexivity.
  - simpl. rewrite app_nil_r. reflexivity.
  - change (join [] (x :: y :: rest)) with (x ++ [] ++ join [] (y :: rest)).
    rewrite IH. reflexivity.
Qed.

Lemma startswith_delim (line : str) :
  startswith line ENTRY_DELIM_CHAR = true <->
  exists h, line = ">"%char :: h.
Proof.
  destruct line as [|c h].
  - split; [discriminate|]. intros [h H]. discriminate H.
  - change (startswith (c :: h) ENTRY_DELIM_CHAR)
      with (Ascii.eqb ">" c && true).
    rewrite andb_true_r, Ascii.eqb_eq. split.
    + intros <-. exists h. reflexivity.
    + intros [h' H]. injection H as -> _. reflexivity.
Qed.

Lemma alphabet_ok_spec (s : str) :
  alphabet_ok s = true <-> pure nucleic_alphabet s \/ pure amino_alphabet s.
Proof.
  unfold alphabet_ok.
  rewrite orb_true_iff, validate_nucleic, validate_amino. reflexivity.
Qed.

Lemma validate_fasta_short (entry : str) :
  (length (splitlines entry) < 2)%nat -> validate_fasta entry = None.
Proof.
  intros H. unfold validate_fasta.
  destruct (Nat.ltb_spec (length (splitlines entry)) 2) as [_|Hge];
    [reflexivity|lia].
Qed.

(** The parser on a text of at least two lines. *)
Lemma validate_fasta_lines (entry line0 line1 : str) (rest : list str) :
  splitlines entry = line0 :: line1 :: rest ->
  validate_fasta entry =
  if startswith line0 ENTRY_DELIM_CHAR then
    if alphabet_ok (concat (line1 :: rest))
    then Some (__init__ (slice_from1 line0) (concat (line1 :: rest)))
    else None
  else None.
Proof.
  intros H. unfold validate_fasta. rewrite H.
  change (length (line0 :: line1 :: rest) <? 2)%nat with false.
  cbv iota. rewrite join_nil.
  destruct (startswith line0 ENTRY_DELIM_CHAR); reflexivity.
Qed.

(** C6.  The parser answers [False] on a text that splits into fewer than
    two lines, and on one whose line 0 does not begin with '>', whatever
    the residues; otherwise the header it extracts is line 0 without its
    leading '>' and nothing else removed, and the residues are the
    remaining lines put together with nothing between them (and the record
    is returned or not according to the alphabet tests alone). *)
Theorem validate_fasta_gates (entry : str) :
  ((length (splitlines entry) < 2)%nat -> validate_fasta entry = None)
  /\ (forall line0 rest,
         splitlines entry = line0 :: rest ->
         (forall h, line0 <> ">"%char :: h) ->
         validate_fasta entry = None)
  /\ (forall h rest,
         splitlines entry = (">"%char :: h) :: rest ->
         (2 <= length (splitlines entry))%nat ->
         validate_fasta entry =
         if validate_sequence (concat rest) NUCLEIC_DELCHARS
            || validate_sequence (concat rest) AA_DELCHARS
         then Some {| header := h; sequence := concat rest; _fasta := None |}
         else None).
Proof.
  split; [apply validate_fasta_short|]. split.
  - intros line0 rest Hs Hno.
    destruct rest as [|line1 rest].
    + apply validate_fasta_short. rewrite Hs. simpl. lia.
    + rewrite (validate_fasta_lines _ _ _ _ Hs).
      destruct (startswith line0 ENTRY_DELIM_CHAR) eqn:Hsw; [|reflexivity].
      apply startswith_delim in Hsw. destruct Hsw as [h Hh].
      exfalso. exact (Hno h Hh).
  - intros h rest Hs Hlen.
    destruct rest as [|line1 rest]; [rewrite Hs in Hlen; simpl in Hlen; lia|].
    rewrite (validate_fasta_lines _ _ _ _ Hs).
    rewrite slice_from1_cons. reflexivity.
Qed.

Lemma validate_fasta_gates_witness :
  validate_fasta (lit ">only a header") = None
  /\ validate_fasta (lit "invalid" ++ [LF] ++ lit "ACGT") = None
  /\ validate_fasta (lit "> I am valid! " ++ [LF] ++ lit "AC" ++ [LF] ++ lit "gt")
     = Some {| header := lit " I am valid! "; sequence := lit "ACgt";
               _fasta := None |}.
Proof.
  split; [|split].
  - apply (validate_fasta_gates (lit ">only a header")). simpl. lia.
  - apply (proj1 (proj2 (validate_fasta_gates
                           (lit "invalid" ++ [LF] ++ lit "ACGT")))
             (lit "invalid") [lit "ACGT"]).
    + reflexivity.
    + intros h H. discriminate H.
  - apply (proj2 (proj2 (validate_fasta_gates
                           (lit "> I am valid! " ++ [LF] ++ lit "AC"
                              ++ [LF] ++ lit "gt")))
             (lit " I am valid! ") [lit "AC"; lit "gt"]).
    + reflexivity.
    + simpl. lia.
Defined.

(** C5.  On a text that passes the structural and the header check (it
    splits into a line 0 that begins with '>' and at least one more line),
    the parser returns a record exactly when the residue lines put
    together are, upper-cased, purely nucleic-acid or purely amino-acid
    characters; the record then holds the residues in the case they were
    written in; otherwise the parser returns [False], which is a value of
    its result and not an exception. *)
Theorem validate_fasta_alphabet_gate (entry h : str) (rest : list str)
  (Hlines : splitlines entry = (">"%char :: h) :: rest)
  (Hrest : rest <> []) :
  ((exists r, validate_fasta entry = Some r) <->
   pure nucleic_alphabet (concat rest) \/ pure amino_alphabet (concat rest))
  /\ (forall r, validate_fasta entry = Some r -> sequence r = concat rest)
  /\ (~ (pure nucleic_alphabet (concat rest)
         \/ pure amino_alphabet (concat rest)) ->
      validate_fasta entry = None).
Proof.
  destruct rest as [|line1 rest]; [contradiction|].
  rewrite (validate_fasta_lines _ _ _ _ Hlines).
  change (startswith (">"%char :: h) ENTRY_DELIM_CHAR) with true. cbv iota.
  rewrite <- alphabet_ok_spec.
  destruct (alphabet_ok (concat (line1 :: rest))).
  - split; [|split].
    + split; [reflexivity|]. intros _. eexists. reflexivity.
    + intros r Hr. injection Hr as <-. reflexivity.
    + intros Hn. exfalso. apply Hn. reflexivity.
  - split; [|split].
    + split; [|discriminate]. intros [r Hr]. discriminate Hr.
    + intros r Hr. discriminate Hr.
    + reflexivity.
Qed.

Lemma validate_fasta_alphabet_gate_witness :
  (forall r, validate_fasta (lit ">h" ++ [LF] ++ lit "acd") = Some r ->
             sequence r = lit "acd")
  /\ validate_fasta (lit ">h" ++ [LF] ++ lit "ACDJ") = None.
Proof.
  split.
  - intros r Hr.
    apply (proj1 (proj2 (validate_fasta_alphabet_gate
                    (lit ">h" ++ [LF] ++ lit "acd") (lit "h") [lit "acd"]
                    eq_refl ltac:(discriminate))) r Hr).
  - apply (validate_fasta_alphabet_gate
             (lit ">h" ++ [LF] ++ lit "ACDJ") (lit "h") [lit "ACDJ"]
             eq_refl ltac:(discriminate)).
    rewrite <- alphabet_ok_spec. discriminate.
Defined.

(** C4, on the code.  The comment of lines 105-106 asks for a header
    followed by a sequence, and line 106 counts the lines for it: a header
    line alone is turned down, with its line feed or without, while a
    header line followed by an empty line is accepted, and the record
    returned has empty residues.  It is a record whose own rendering the
    parser turns down. *)
Theorem accepted_with_empty_residues :
  validate_fasta (lit ">h") = None
  /\ validate_fasta (lit ">h" ++ [LF]) = None
  /\ (exists r,
         validate_fasta (lit ">h" ++ [LF; LF]) = Some r /\ sequence r = [])
  /\ validate_fasta (lit ">h" ++ [LF; LF]) = Some (__init__ (lit "h") [])
  /\ _to_fasta Posix (__init__ (lit "h") []) = Ok (lit ">h" ++ [LF]).
Proof.
  split; [reflexivity|]. split; [reflexivity|]. split.
  - eexists. split; reflexivity.
  - split; reflexivity.
Qed.

(** ** Line splitting *)

Lemma scan_lines_unbroken (l : str) :
  unbroken l ->
  forall cur rest, scan_lines cur (l ++ rest) = scan_lines (cur ++ l) rest.
Proof.
  induction 1 as [|c l Hc _ IH]; intros cur rest.
  - rewrite app_nil_r. reflexivity.
  - simpl. rewrite Hc, IH, <- app_assoc. reflexivity.
Qed.

Lemma scan_lines_linesep (os : platform) (cur : str) (c : ascii)
  (rest : str) :
  scan_lines cur (linesep os ++ c :: rest)
  = cur :: scan_lines [] (c :: rest).
Proof. destruct os; reflexivity. Qed.

Lemma scan_lines_LF (cur : str) (c : ascii) (rest : str) :
  scan_lines cur (LF :: c :: rest) = cur :: scan_lines [] (c :: rest).
Proof. reflexivity. Qed.

Lemma join_cons_cons (sep x y : str) (rest : list str) :
  join sep (x :: y :: rest) = x ++ sep ++ join sep (y :: rest).
Proof. reflexivity. Qed.

Lemma join_nonempty (sep x : str) (rest : list str) :
  x <> [] -> exists c t, join sep (x :: rest) = c :: t.
Proof.
  intros Hx. destruct x as [|c x]; [contradiction|].
  destruct rest; simpl; eexists; eexists; reflexivity.
Qed.

(** Splitting undoes joining with the platform's line separator, for
    chunks that are not empty and hold no line boundary. *)
Lemma scan_lines_join (os : platform) (chunks : list str) :
  Forall (fun c => c <> [] /\ unbroken c) chunks ->
  forall x cur,
    unbroken x ->
    scan_lines cur (join (linesep os) (x :: chunks)) = (cur ++ x) :: chunks.
Proof.
  induction 1 as [|y chunks [Hy Hu] _ IH]; intros x cur Hx.
  - simpl. rewrite <- (app_nil_r x) at 1.
    rewrite scan_lines_unbroken by exact Hx. reflexivity.
  - rewrite join_cons_cons, scan_lines_unbroken by exact Hx.
    destruct (join_nonempty (linesep os) y chunks Hy) as [c [t Hj]].
    rewrite Hj, scan_lines_linesep, <- Hj, IH by exact Hu.
    reflexivity.
Qed.

Lemma all_in_spec (alphabet l : list N) :
  all_in alphabet l = true <-> Forall (fun u => In u alphabet) l.
Proof.
  unfold all_in. rewrite forallb_forall, Forall_forall.
  split; intros H u Hu; specialize (H u Hu).
  - apply existsb_exists in H. destruct H as [v [Hv Heq]].
    apply N.eqb_eq in Heq. subst v. exact Hv.
  - apply existsb_exists. exists u. split; [exact H|apply N.eqb_refl].
Qed.

(** No line boundary is, upper-cased, a character of either alphabet. *)
Lemma linebreak_not_residue (c : ascii) :
  is_linebreak c = true ->
  all_in nucleic_alphabet (upper_char c) = false
  /\ all_in amino_alphabet (upper_char c) = false.
Proof.
  destruct c as [[] [] [] [] [] [] [] []]; intros H;
    solve [discriminate H | split; reflexivity].
Qed.

Lemma pure_unbroken (s : str) :
  pure nucleic_alphabet s \/ pure amino_alphabet s -> unbroken s.
Proof.
  unfold pure, unbroken. rewrite !Forall_forall.
  intros Hp c Hc. destruct (is_linebreak c) eqn:Hb; [|reflexivity].
  destruct (linebreak_not_residue c Hb) as [Hn Ha].
  destruct Hp as [Hp|Hp]; specialize (Hp c Hc); apply all_in_spec in Hp;
    congruence.
Qed.

Lemma pieces_nonempty (s : str) (w : nat) :
  (0 < w)%nat ->
  Forall (fun c => c <> []) (pieces s w (count (length s) w)).
Proof.
  intros Hw. unfold pieces. rewrite Forall_map, Forall_forall.
  intros k Hk. apply in_seq in Hk.
  assert (Hl : (0 < length s)%nat)
    by (destruct (length s); simpl in *; lia).
  pose proof (count_tight (length s) w Hw Hl) as Ht.
  assert (k * w <= pred (count (length s) w) * w)%nat
    by (apply Nat.mul_le_mono_r; lia).
  intros Hnil. apply (f_equal (@length ascii)) in Hnil.
  rewrite length_firstn, length_skipn in Hnil. simpl in Hnil. lia.
Qed.

(** The lines of a rendering: the header line, then the chunks. *)
Lemma splitlines_rendering (os : platform) (h : str) (chunks : list str) :
  unbroken h ->
  chunks <> [] ->
  Forall (fun c => c <> [] /\ unbroken c) chunks ->
  splitlines (ENTRY_DELIM_CHAR ++ h ++ [LF] ++ join (linesep os) chunks)
  = (">"%char :: h) :: chunks.
Proof.
  intros Hh Hne Hc.
  destruct chunks as [|x chunks]; [contradiction|].
  inversion Hc as [|? ? [Hx Hux] Hrest]; subst.
  destruct (join_nonempty (linesep os) x chunks Hx) as [c [t Hj]].
  change (ENTRY_DELIM_CHAR ++ h ++ [LF] ++ join (linesep os) (x :: chunks))
    with (">"%char :: (h ++ LF :: join (linesep os) (x :: chunks))).
  unfold splitlines.
  change (">"%char :: h ++ LF :: join (linesep os) (x :: chunks))
    with ((">"%char :: h) ++ LF :: join (linesep os) (x :: chunks)).
  rewrite scan_lines_unbroken by (constructor; [reflexivity|exact Hh]).
  rewrite Hj, scan_lines_LF, <- Hj.
  rewrite scan_lines_join by assumption.
  reflexivity.
Qed.

(** ** Round trip *)

(** A record with empty residues, which are vacuously of either alphabet,
    and a header without a line boundary: its rendering has the header
    line alone, and the parser answers [False] on it. *)
Lemma roundtrip_fails_on_empty_residues :
  pure nucleic_alphabet (sequence (__init__ (lit "h") []))
  /\ unbroken (header (__init__ (lit "h") []))
  /\ _to_fasta Posix (__init__ (lit "h") []) = Ok (lit ">h" ++ [LF])
  /\ validate_fasta (lit ">h" ++ [LF]) = None.
Proof.
  split; [constructor|].
  split; [repeat constructor|].
  split; reflexivity.
Qed.

(** C3, amended.  For a record whose residues are not empty and are,
    upper-cased, characters of one of the two alphabets, and whose header
    holds none of the characters at which the parser splits lines, the
    parser accepts the rendering at every width of at least 1 (the one of
    [_to_fasta] is [LINE_LENGTH]) and on either platform, and returns the
    record's header and residues. *)
Theorem roundtrip (os : platform) (r : Sequence) (w : Z)
  (Hw : (1 <= w)%Z)
  (Hne : sequence r <> [])
  (Hpure : pure nucleic_alphabet (sequence r)
           \/ pure amino_alphabet (sequence r))
  (Hh : unbroken (header r)) :
  exists body,
    split_text (sequence r) (linesep os) w = Ok body
    /\ validate_fasta (ENTRY_DELIM_CHAR ++ header r ++ [LF] ++ body)
       = Some (__init__ (header r) (sequence r))
    /\ (w = LINE_LENGTH ->
        _to_fasta os r = Ok (ENTRY_DELIM_CHAR ++ header r ++ [LF] ++ body)).
Proof.
  pose proof (split_text_chunks_pieces (sequence r) w Hw) as Hc.
  set (chunks := pieces (sequence r) (Z.to_nat w)
                   (count (length (sequence r)) (Z.to_nat w))) in *.
  assert (Hwr : wrapped (sequence r) (Z.to_nat w) chunks)
    by (apply pieces_wrapped; lia).
  destruct Hwr as [Hcat [_ [_ _]]].
  assert (Hcne : chunks <> []).
  { intros E. rewrite E in Hcat. simpl in Hcat. congruence. }
  assert (Hgood : Forall (fun c => c <> [] /\ unbroken c) chunks).
  { pose proof (pieces_nonempty (sequence r) (Z.to_nat w) ltac:(lia)) as H1.
    pose proof (pure_unbroken _ Hpure) as H2.
    unfold unbroken in H2. rewrite <- Hcat in H2.
    apply Forall_concat in H2. fold chunks in H1.
    apply Forall_forall. intros c Hin. split.
    - exact (proj1 (Forall_forall _ _) H1 c Hin).
    - exact (proj1 (Forall_forall _ _) H2 c Hin). }
  exists (join (linesep os) chunks).
  split; [apply split_text_join; exact Hc|]. split.
  - destruct chunks as [|x rest] eqn:Ech; [contradiction|].
    rewrite (validate_fasta_lines _ (">"%char :: header r) x rest)
      by (apply splitlines_rendering; assumption).
    change (startswith (">"%char :: header r) ENTRY_DELIM_CHAR) with true.
    cbv iota. rewrite Hcat, slice_from1_cons.
    apply alphabet_ok_spec in Hpure. rewrite Hpure. reflexivity.
  - intros ->. apply to_fasta_chunks. exact Hc.
Qed.

Lemma roundtrip_witness :
  exists body,
    split_text (lit "acgtnACGTN") (linesep Windows) 4 = Ok body
    /\ validate_fasta (ENTRY_DELIM_CHAR ++ lit "id|x y" ++ [LF] ++ body)
       = Some (__init__ (lit "id|x y") (lit "acgtnACGTN")).
Proof.
  assert (Hp : pure nucleic_alphabet (lit "acgtnACGTN")
               \/ pure amino_alphabet (lit "acgtnACGTN")).
  { apply alphabet_ok_spec. reflexivity. }
  assert (Hu : unbroken (lit "id|x y")).
  { apply Forall_forall. intros c Hc. simpl in Hc.
    repeat (destruct Hc as [<-|Hc]; [reflexivity|]). contradiction. }
  destruct (roundtrip Windows (__init__ (lit "id|x y") (lit "acgtnACGTN")) 4
              ltac:(lia) ltac:(discriminate) Hp Hu) as [body [Hb [Hv _]]].
  exists body. split; [exact Hb|exact Hv].
Defined.

(** ** The specification's line splitting and [splitlines] *)

Lemma not_linebreak_not_LF_CR (c : ascii) :
  is_linebreak c = false -> Ascii.eqb c LF = false /\ Ascii.eqb c CR = false.
Proof.
  intros H. split.
  - destruct (Ascii.eqb_spec c LF) as [->|_]; [discriminate H|reflexivity].
  - destruct (Ascii.eqb_spec c CR) as [->|_]; [discriminate H|reflexivity].
Qed.

Lemma scan_universal_agrees (n : nat) :
  forall s cur,
    (length s <= n)%nat ->
    only_universal s = true ->
    scan_lines cur s = scan_universal cur s.
Proof.
  induction n as [|n IH]; intros s cur Hlen Hou.
  - destruct s; [reflexivity|simpl in Hlen; lia].
  - destruct s as [|c s']; [reflexivity|].
    simpl in Hlen. simpl in Hou.
    apply andb_true_iff in Hou. destruct Hou as [Hc Hou].
    assert (IH' : forall cur', scan_lines cur' s' = scan_universal cur' s')
      by (intros cur'; apply IH; [lia|exact Hou]).
    simpl scan_lines. simpl scan_universal.
    destruct (is_linebreak c) eqn:Hb.
    + simpl in Hc. destruct (Ascii.eqb_spec c LF) as [->|HnLF].
      * change (Ascii.eqb LF CR) with false. simpl andb.
        destruct s'; [reflexivity|]. rewrite IH'. reflexivity.
      * simpl in Hc. apply andb_true_iff in Hc. destruct Hc as [HCR Hd].
        destruct s' as [|d s'']; [discriminate Hd|].
        rewrite HCR, Hd. simpl andb.
        destruct s'' as [|e s'']; [reflexivity|].
        f_equal. apply IH.
        -- simpl in Hlen |- *. lia.
        -- simpl in Hou. apply andb_true_iff in Hou. apply Hou.
    + destruct (not_linebreak_not_LF_CR c Hb) as [HLF HCR].
      rewrite HLF, HCR. simpl andb.
      destruct s' as [|d s''].
      * reflexivity.
      * apply IH'.
Qed.

(** A line boundary ends the line: the text before it, when it holds no
    boundary itself, is a line, and the lines of the text after it follow
    (a carriage return before a line feed is one boundary with it). *)
Lemma splitlines_boundary (a : str) (b : ascii) (c : str) :
  unbroken a ->
  is_linebreak b = true ->
  (b = CR -> forall t, c <> LF :: t) ->
  splitlines (a ++ b :: c) = a :: splitlines c.
Proof.
  intros Ha Hb Hcr.
  assert (E : splitlines (a ++ b :: c) = scan_lines [] (a ++ b :: c))
    by (destruct a; reflexivity).
  rewrite E, scan_lines_unbroken by exact Ha.
  simpl. rewrite Hb. f_equal.
  destruct c as [|d c']; [reflexivity|].
  destruct (Ascii.eqb_spec b CR) as [HbCR|_]; [|reflexivity].
  destruct (Ascii.eqb_spec d LF) as [->|_]; [|reflexivity].
  exfalso. exact (Hcr HbCR c' eq_refl).
Qed.

Lemma linebreak_codes (b : ascii) :
  In (ord b) [10; 11; 12; 13; 28; 29; 30; 133]%N -> is_linebreak b = true.
Proof.
  intros H. unfold is_linebreak. simpl in H.
  repeat (destruct H as [H|H]; [rewrite <- H; reflexivity|]).
  contradiction.
Qed.

(** A header and residues with a lone carriage return between them: the
    parser takes them for two lines and accepts the text, while the
    splitting at line feeds and carriage return-line feed pairs alone
    leaves one line; a vertical tab splits a line in the same way. *)
Lemma splits_at_lone_carriage_return :
  splitlines (lit ">h" ++ [CR] ++ lit "ACD") = [lit ">h"; lit "ACD"]
  /\ split_universal (lit ">h" ++ [CR] ++ lit "ACD")
     = [lit ">h" ++ [CR] ++ lit "ACD"]
  /\ validate_fasta (lit ">h" ++ [CR] ++ lit "ACD")
     = Some (__init__ (lit "h") (lit "ACD"))
  /\ splitlines (lit ">h" ++ [ascii_of_N 11] ++ lit "ACD")
     = [lit ">h"; lit "ACD"].
Proof. repeat split; reflexivity. Qed.

Lemma linebreak_codes_iff (b : ascii) :
  is_linebreak b = true <->
  In (ord b) [10; 11; 12; 13; 28; 29; 30; 133]%N.
Proof.
  split; [|apply linebreak_codes].
  unfold is_linebreak. cbv zeta. rewrite !orb_true_iff, !N.eqb_eq.
  simpl. intuition auto.
Qed.

(** The first boundary of a text: what is before it is a line, and the
    lines of what comes after it follow. *)
Lemma splitlines_first_boundary (a : str) (b : ascii) (c : str) :
  unbroken a ->
  is_linebreak b = true ->
  splitlines (a ++ b :: c) = a :: splitlines (after_boundary b c).
Proof.
  intros Ha Hb.
  assert (E : splitlines (a ++ b :: c) = scan_lines [] (a ++ b :: c))
    by (destruct a; reflexivity).
  rewrite E, scan_lines_unbroken by exact Ha.
  simpl. rewrite Hb. f_equal.
  destruct c as [|d c']; [reflexivity|].
  unfold after_boundary.
  destruct (Ascii.eqb b CR && Ascii.eqb d LF); reflexivity.
Qed.

(** C9, amended.  On every text (of characters below code point 256) the
    parser splits at the line boundaries of [str.splitlines], which are the
    characters of code 10 to 13, 28 to 30 and 133 (line feed, vertical tab,
    form feed, carriage return, the three separators and next line) and no
    other, a carriage return taking a line feed that follows it into the
    same boundary: the empty text has no line, a text without boundary is
    one line, and otherwise the text before the first boundary is a line
    and the lines of the text after that boundary follow.  On a text whose
    only boundaries are line feeds and carriage return-line feed pairs
    these are the lines of the splitting at those two alone.  The parser
    works on these lines: its result depends on the text through them
    only, and on a text that starts with '>' the header is what stands
    between the '>' and the first boundary, and the residues are the lines
    of the text after that boundary put together. *)
Theorem splitlines_boundaries (text : str) :
  (forall c, is_linebreak c = true <->
             In (ord c) [10; 11; 12; 13; 28; 29; 30; 133]%N)
  /\ splitlines [] = []
  /\ (unbroken text -> text <> [] -> splitlines text = [text])
  /\ (forall a b c,
         text = a ++ b :: c ->
         unbroken a ->
         In (ord b) [10; 11; 12; 13; 28; 29; 30; 133]%N ->
         splitlines text = a :: splitlines (after_boundary b c))
  /\ (only_universal text = true -> splitlines text = split_universal text)
  /\ (forall text',
         splitlines text = splitlines text' ->
         validate_fasta text = validate_fasta text')
  /\ (forall h b c,
         text = (">"%char :: h) ++ b :: c ->
         unbroken h ->
         In (ord b) [10; 11; 12; 13; 28; 29; 30; 133]%N ->
         validate_fasta text =
         match splitlines (after_boundary b c) with
         | [] => None
         | line1 :: rest =>
             if validate_sequence (concat (line1 :: rest)) NUCLEIC_DELCHARS
                || validate_sequence (concat (line1 :: rest)) AA_DELCHARS
             then Some (__init__ h (concat (line1 :: rest)))
             else None
         end).
Proof.
  split; [exact linebreak_codes_iff|].
  split; [reflexivity|]. split; [|split; [|split; [|split]]].
  - intros Hu Hne. destruct text as [|c t]; [contradiction|].
    unfold splitlines. rewrite <- (app_nil_r (c :: t)) at 1.
    rewrite scan_lines_unbroken by exact Hu. reflexivity.
  - intros a b c -> Ha Hb.
    apply splitlines_first_boundary; [exact Ha|].
    apply linebreak_codes. exact Hb.
  - intros H. destruct text as [|c t]; [reflexivity|].
    apply (scan_universal_agrees (length (c :: t))); [lia|exact H].
  - intros text' E. unfold validate_fasta. rewrite E. reflexivity.
  - intros h b c -> Hh Hb.
    pose proof (splitlines_first_boundary (">"%char :: h) b c
                  ltac:(constructor; [reflexivity|exact Hh])
                  (linebreak_codes b Hb)) as Hs.
    destruct (splitlines (after_boundary b c)) as [|line1 rest].
    + apply validate_fasta_short. rewrite Hs. simpl. lia.
    + rewrite (validate_fasta_lines _ _ _ _ Hs).
      change (startswith (">"%char :: h) ENTRY_DELIM_CHAR) with true.
      cbv iota. rewrite slice_from1_cons. reflexivity.
Qed.

(** A carriage return-line feed pair first and a vertical tab later: three
    lines, a record of the residues of the last two. *)
Lemma splitlines_boundaries_witness :
  splitlines (lit ">h" ++ [CR; LF] ++ lit "ACD" ++ [ascii_of_N 11] ++ lit "GG")
  = lit ">h" :: splitlines (lit "ACD" ++ [ascii_of_N 11] ++ lit "GG")
  /\ splitlines (lit "ACD" ++ [ascii_of_N 11] ++ lit "GG")
     = lit "ACD" :: splitlines (lit "GG")
  /\ splitlines (lit "GG") = [lit "GG"]
  /\ validate_fasta
       (lit ">h" ++ [CR; LF] ++ lit "ACD" ++ [ascii_of_N 11] ++ lit "GG")
     = Some (__init__ (lit "h") (lit "ACDGG"))
  /\ splitlines (lit ">h" ++ [CR; LF] ++ lit "AC" ++ [LF] ++ lit "GT" ++ [LF])
     = split_universal
         (lit ">h" ++ [CR; LF] ++ lit "AC" ++ [LF] ++ lit "GT" ++ [LF]).
Proof.
  assert (Hu : forall s, forallb (fun c => negb (is_linebreak c)) s = true ->
                         unbroken s).
  { intros s H. apply Forall_forall. intros c Hc.
    rewrite forallb_forall in H. specialize (H c Hc).
    destruct (is_linebreak c); [discriminate H|reflexivity]. }
  split; [|split; [|split; [|split]]].
  - apply (proj1 (proj2 (proj2 (proj2 (splitlines_boundaries
             (lit ">h" ++ [CR; LF] ++ lit "ACD" ++ [ascii_of_N 11]
                ++ lit "GG")))))
             (lit ">h") CR
             (LF :: lit "ACD" ++ [ascii_of_N 11] ++ lit "GG")).
    + reflexivity.
    + apply Hu. reflexivity.
    + simpl. tauto.
  - apply (proj1 (proj2 (proj2 (proj2 (splitlines_boundaries
             (lit "ACD" ++ [ascii_of_N 11] ++ lit "GG")))))
             (lit "ACD") (ascii_of_N 11) (lit "GG")).
    + reflexivity.
    + apply Hu. reflexivity.
    + simpl. tauto.
  - apply (proj1 (proj2 (proj2 (splitlines_boundaries (lit "GG"))))).
    + apply Hu. reflexivity.
    + discriminate.
  - apply (proj2 (proj2 (proj2 (proj2 (proj2 (proj2 (splitlines_boundaries
             (lit ">h" ++ [CR; LF] ++ lit "ACD" ++ [ascii_of_N 11]
                ++ lit "GG")))))))
             (lit "h") CR
             (LF :: lit "ACD" ++ [ascii_of_N 11] ++ lit "GG")).
    + reflexivity.
    + apply Hu. reflexivity.
    + simpl. tauto.
  - apply (proj1 (proj2 (proj2 (proj2 (proj2 (splitlines_boundaries
             (lit ">h" ++ [CR; LF] ++ lit "AC" ++ [LF] ++ lit "GT"
                ++ [LF]))))))).
    reflexivity.
Defined.

(** ** The [fasta] setter *)

(** C1, on the code.  Line 77 calls [self.validate], a name that neither
    the class nor its instances define: on every record and every text the
    setter raises [AttributeError] and leaves the record as it was.  So it
    raises on the texts the parser accepts, and what it raises on the
    others is not [InvalidFastaSequenceException]. *)
Theorem fasta_setter_raises_AttributeError (self : Sequence) (text : str) :
  fasta_setter self text = (Raise AttributeError, self)
  /\ validate_fasta (lit ">h" ++ [LF] ++ lit "ACD")
     = Some (__init__ (lit "h") (lit "ACD"))
  /\ fasta_setter (__init__ (lit "x") (lit "GG"))
       (lit ">h" ++ [LF] ++ lit "ACD")
     = (Raise AttributeError, __init__ (lit "x") (lit "GG"))
  /\ validate_fasta (lit "no header") = None
  /\ fasta_setter (__init__ (lit "x") (lit "GG")) (lit "no header")
     = (Raise AttributeError, __init__ (lit "x") (lit "GG")).
Proof. repeat split; reflexivity. Qed.

Lemma fasta_setter_via_parser (os : platform) (self : Sequence) (t : str)
  (parsed : Sequence) :
  validate_fasta t = Some parsed ->
  let self' := snd (fasta_setter_via (Some validate_fasta) self t) in
  header self' = header parsed
  /\ sequence self' = sequence parsed
  /\ _fasta self' = _fasta self
  /\ (forall cached, _fasta self = Some cached ->
                     fst (fasta os self') = Ok cached).
Proof.
  intros H. unfold fasta_setter_via. rewrite H. simpl.
  repeat split. intros cached Hc. unfold fasta. simpl. rewrite Hc.
  reflexivity.
Qed.

(** C2, on the code.  A record whose rendering has been computed, assigned
    a text the parser accepts: the setter raises [AttributeError] (the
    lookup of line 77) and replaces nothing, so the next access returns
    the old rendering.  With the lookup resolved to the parser, the setter
    (lines 82-83) replaces the header and the residues and leaves the
    cached rendering in place: the next access returns it, not the
    rendering of the new header and residues. *)
Theorem fasta_setter_keeps_cache :
  let r0 := __init__ (lit "h") (lit "ACD") in
  let r1 := snd (fasta Posix r0) in
  let text := lit ">x" ++ [LF] ++ lit "GG" in
  let r2 := snd (fasta_setter_via (Some validate_fasta) r1 text) in
  fasta Posix r0 = (Ok (lit ">h" ++ [LF] ++ lit "ACD"), r1)
  /\ _fasta r1 = Some (lit ">h" ++ [LF] ++ lit "ACD")
  /\ validate_fasta text = Some (__init__ (lit "x") (lit "GG"))
  /\ fasta_setter r1 text = (Raise AttributeError, r1)
  /\ fst (fasta Posix (snd (fasta_setter r1 text)))
     = Ok (lit ">h" ++ [LF] ++ lit "ACD")
  /\ header r2 = lit "x"
  /\ sequence r2 = lit "GG"
  /\ fst (fasta Posix r2) = Ok (lit ">h" ++ [LF] ++ lit "ACD")
  /\ _to_fasta Posix r2 = Ok (lit ">x" ++ [LF] ++ lit "GG").
Proof. repeat split; reflexivity. Qed.

(** * Further properties of the code *)

(** ** The [fasta] getter *)

Lemma to_fasta_ok (os : platform) (r : Sequence) :
  _to_fasta os r
  = Ok (ENTRY_DELIM_CHAR ++ header r ++ [LF]
          ++ join (linesep os) (pieces (sequence r) 80
                                  (count (length (sequence r)) 80))).
Proof.
  apply to_fasta_chunks.
  exact (split_text_chunks_pieces (sequence r) LINE_LENGTH
           ltac:(unfold LINE_LENGTH; lia)).
Qed.

(** X1.  The getter (lines 67-72) never raises.  It returns the cached text
    when there is one and the rendering of [_to_fasta] otherwise, leaves
    header and residues as they are and the returned text in the cache; a
    second access returns the same text and changes nothing. *)
Theorem fasta_getter_caches (os : platform) (self : Sequence) :
  exists t,
    fasta os self
    = (Ok t, {| header := header self; sequence := sequence self;
                _fasta := Some t |})
    /\ (_fasta self = None -> _to_fasta os self = Ok t)
    /\ (forall cached, _fasta self = Some cached -> t = cached)
    /\ fasta os (snd (fasta os self)) = (Ok t, snd (fasta os self)).
Proof.
  destruct self as [h s [c|]]; unfold fasta; cbn [_fasta header sequence].
  - exists c. split; [reflexivity|]. split; [discriminate|]. split.
    + intros cached H. injection H as <-. reflexivity.
    + reflexivity.
  - rewrite to_fasta_ok. eexists.
    split; [reflexivity|]. split; [reflexivity|]. split.
    + intros cached H. discriminate H.
    + reflexivity.
Qed.

Lemma fasta_getter_caches_witness :
  exists t,
    _to_fasta Windows (__init__ (lit "h") (lit "ACD")) = Ok t
    /\ fasta Windows (snd (fasta Windows (__init__ (lit "h") (lit "ACD"))))
       = (Ok t, snd (fasta Windows (__init__ (lit "h") (lit "ACD")))).
Proof.
  destruct (fasta_getter_caches Windows (__init__ (lit "h") (lit "ACD")))
    as [t [_ [Hnone [_ Htwice]]]].
  exists t. split; [apply Hnone; reflexivity|exact Htwice].
Defined.

(** ** The alphabets *)

Lemma nucleic_in_amino (u : N) :
  In u nucleic_alphabet -> In u amino_alphabet.
Proof.
  intros H.
  pose proof (proj1 (all_in_spec amino_alphabet nucleic_alphabet) eq_refl)
    as Hall.
  rewrite Forall_forall in Hall. exact (Hall u H).
Qed.

Lemma pure_nucleic_amino (s : str) :
  pure nucleic_alphabet s -> pure amino_alphabet s.
Proof.
  unfold pure. intros H.
  eapply Forall_impl; [|exact H]. intros c Hc.
  eapply Forall_impl; [|exact Hc]. exact nucleic_in_amino.
Qed.

(** X2.  Every character of [VALID_NUCLEIC_ACIDS] is in
    [VALID_AMINO_ACIDS]: a text that passes the nucleic-acid test passes
    the amino-acid test, and the test of line 122 accepts exactly the texts
    that the amino-acid test accepts. *)
Theorem nucleic_test_implies_amino_test (s : str) :
  (validate_sequence s NUCLEIC_DELCHARS = true ->
   validate_sequence s AA_DELCHARS = true)
  /\ validate_sequence s NUCLEIC_DELCHARS || validate_sequence s AA_DELCHARS
     = validate_sequence s AA_DELCHARS.
Proof.
  assert (H : validate_sequence s NUCLEIC_DELCHARS = true ->
              validate_sequence s AA_DELCHARS = true).
  { intros Hn. apply validate_amino, pure_nucleic_amino, validate_nucleic.
    exact Hn. }
  split; [exact H|].
  destruct (validate_sequence s NUCLEIC_DELCHARS); [|reflexivity].
  rewrite H; reflexivity.
Qed.

Lemma nucleic_test_implies_amino_test_witness :
  validate_sequence (lit "acgu-N") AA_DELCHARS = true.
Proof.
  exact (proj1 (nucleic_test_implies_amino_test (lit "acgu-N")) eq_refl).
Defined.

(** ** [split_text] at its bounds *)

(** X3.  A width of zero makes [split_text] raise [ValueError] (the step of
    [range]); a negative width makes it return the empty text, whatever
    the text and the separator. *)
Theorem split_text_bad_width (s sep : str) (w : Z) (Hw : (w <= 0)%Z) :
  split_text s sep w = if (w =? 0)%Z then Raise ValueError else Ok [].
Proof.
  unfold split_text, split_text_chunks, range0, range_length.
  destruct (Z.eqb_spec w 0) as [->|Hne]; [reflexivity|].
  destruct (Z.ltb_spec 0 w) as [Hpos|_]; [lia|].
  destruct (Z.ltb_spec (Z.of_nat (length s)) 0) as [Hneg|_]; [lia|].
  reflexivity.
Qed.

Lemma split_text_bad_width_witness :
  split_text (lit "ACGT") [LF] 0 = Raise ValueError
  /\ split_text (lit "ACGT") [LF] (-2) = Ok [].
Proof.
  split.
  - apply (split_text_bad_width (lit "ACGT") [LF] 0). lia.
  - apply (split_text_bad_width (lit "ACGT") [LF] (-2)). lia.
Defined.

Lemma pieces_short (s : str) (w : nat) :
  (0 < w)%nat -> (length s <= w)%nat ->
  forall sep, join sep (pieces s w (count (length s) w)) = s.
Proof.
  intros Hw Hlen sep. destruct s as [|c s]; [reflexivity|].
  simpl length in *. unfold count.
  rewrite Nat.div_small by lia.
  unfold pieces. cbn [seq map join].
  rewrite Nat.mul_0_l. cbn [skipn].
  apply firstn_all2. simpl. lia.
Qed.

(** X4.  A text no longer than the width comes back from [split_text] as it
    is, with no separator in it; so a record of at most [LINE_LENGTH] = 80
    residues is rendered as its header line followed by the residues on
    one line, on either platform. *)
Theorem split_text_short (s sep : str) (w : Z)
  (Hw : (1 <= w)%Z) (Hlen : (Z.of_nat (length s) <= w)%Z) :
  split_text s sep w = Ok s
  /\ (w = LINE_LENGTH ->
      forall os h cache,
        _to_fasta os {| header := h; sequence := s; _fasta := cache |}
        = Ok (ENTRY_DELIM_CHAR ++ h ++ [LF] ++ s)).
Proof.
  split.
  - rewrite (split_text_join s sep w _ (split_text_chunks_pieces s w Hw)).
    rewrite pieces_short by lia. reflexivity.
  - intros -> os h cache. rewrite to_fasta_ok. simpl sequence. simpl header.
    rewrite pieces_short by (unfold LINE_LENGTH in Hlen; lia).
    reflexivity.
Qed.

Lemma split_text_short_witness :
  split_text (lit "ACGT") [CR; LF] 4 = Ok (lit "ACGT").
Proof.
  apply (split_text_short (lit "ACGT") [CR; LF] 4); simpl; lia.
Defined.

(** ** What the parser returns *)

Lemma scan_lines_lines_unbroken (n : nat) :
  forall s cur,
    (length s <= n)%nat ->
    unbroken cur ->
    Forall unbroken (scan_lines cur s).
Proof.
  induction n as [|n IH]; intros s cur Hlen Hcur.
  - destruct s; [|simpl in Hlen; lia]. repeat constructor. exact Hcur.
  - destruct s as [|c s']; [repeat constructor; exact Hcur|].
    simpl in Hlen. simpl scan_lines.
    destruct (is_linebreak c) eqn:Hb.
    + constructor; [exact Hcur|].
      destruct s' as [|d s'']; [constructor|].
      destruct (Ascii.eqb c CR && Ascii.eqb d LF).
      * destruct s'' as [|e s'']; [constructor|].
        apply IH; [simpl in Hlen |- *; lia|constructor].
      * apply IH; [lia|constructor].
    + apply IH; [lia|].
      apply Forall_app. split; [exact Hcur|].
      constructor; [exact Hb|constructor].
Qed.

Lemma splitlines_lines_unbroken (s : str) : Forall unbroken (splitlines s).
Proof.
  destruct s as [|c s]; [constructor|].
  apply (scan_lines_lines_unbroken (length (c :: s))); [lia|constructor].
Qed.

(** The first of several lines is followed in the text by a boundary. *)
Lemma scan_lines_first_line (s : str) :
  forall cur l more,
    scan_lines cur s = l :: more ->
    more <> [] ->
    exists b t, cur ++ s = l ++ b :: t /\ is_linebreak b = true.
Proof.
  induction s as [|c s' IH]; intros cur l more Hs Hmore.
  - simpl in Hs. injection Hs as _ <-. contradiction.
  - simpl in Hs. destruct (is_linebreak c) eqn:Hb.
    + injection Hs as <- _. exists c, s'. split; [reflexivity|exact Hb].
    + destruct (IH _ _ _ Hs Hmore) as [b [t [E Hbb]]].
      exists b, t. split; [|exact Hbb].
      rewrite <- E, <- app_assoc. reflexivity.
Qed.

Lemma accepted_record (entry : str) (r : Sequence) :
  validate_fasta entry = Some r ->
  _fasta r = None
  /\ (exists b rest,
         entry = ">"%char :: header r ++ b :: rest /\ is_linebreak b = true)
  /\ unbroken (header r)
  /\ unbroken (sequence r)
  /\ pure amino_alphabet (sequence r).
Proof.
  intros Hacc.
  destruct (splitlines entry) as [|line0 [|line1 rest]] eqn:Hs.
  - rewrite validate_fasta_short in Hacc by (rewrite Hs; simpl; lia).
    discriminate Hacc.
  - rewrite validate_fasta_short in Hacc by (rewrite Hs; simpl; lia).
    discriminate Hacc.
  - rewrite (validate_fasta_lines _ _ _ _ Hs) in Hacc.
    destruct (startswith line0 ENTRY_DELIM_CHAR) eqn:Hsw;
      [|discriminate Hacc].
    apply startswith_delim in Hsw. destruct Hsw as [h ->].
    destruct (alphabet_ok (concat (line1 :: rest))) eqn:Hok;
      [|discriminate Hacc].
    injection Hacc as <-. rewrite slice_from1_cons.
    cbn [_fasta header sequence __init__].
    apply alphabet_ok_spec in Hok.
    pose proof (splitlines_lines_unbroken entry) as Hu. rewrite Hs in Hu.
    split; [reflexivity|]. split; [|split; [|split]].
    + destruct entry as [|c e]; [discriminate Hs|].
      unfold splitlines in Hs.
      destruct (scan_lines_first_line _ _ _ _ Hs ltac:(discriminate))
        as [b [t [E Hb]]].
      exists b, t. split; [exact E|exact Hb].
    + inversion Hu as [|? ? Hh _]; subst. inversion Hh; assumption.
    + apply pure_unbroken. exact Hok.
    + destruct Hok as [Hn|Ha]; [apply pure_nucleic_amino; exact Hn|exact Ha].
Qed.

(** X5.  A record the parser returns has an empty cache; its header is the
    text between the leading '>' and the first line boundary of the input,
    and holds no line boundary; its residues hold no line boundary either
    and are, upper-cased, characters of the amino-acid alphabet. *)
Theorem validate_fasta_record (entry : str) (r : Sequence)
  (Hacc : validate_fasta entry = Some r) :
  _fasta r = None
  /\ (exists b rest,
         entry = ">"%char :: header r ++ b :: rest /\ is_linebreak b = true)
  /\ unbroken (header r)
  /\ unbroken (sequence r)
  /\ pure amino_alphabet (sequence r).
Proof. exact (accepted_record entry r Hacc). Qed.

Lemma validate_fasta_record_witness :
  exists b rest,
    lit ">id 1" ++ [CR; LF] ++ lit "ACgt" ++ [LF] ++ lit "NN"
    = ">"%char :: header (__init__ (lit "id 1") (lit "ACgtNN")) ++ b :: rest
    /\ is_linebreak b = true.
Proof.
  apply (validate_fasta_record
           (lit ">id 1" ++ [CR; LF] ++ lit "ACgt" ++ [LF] ++ lit "NN")).
  reflexivity.
Defined.

(** The parser on a rendering: a header without a line boundary, residues
    that are not empty and of one alphabet, any width of at least 1. *)
Lemma rendering_parses (os : platform) (h s : str) (w : nat) :
  (0 < w)%nat ->
  s <> [] ->
  pure nucleic_alphabet s \/ pure amino_alphabet s ->
  unbroken h ->
  validate_fasta
    (ENTRY_DELIM_CHAR ++ h ++ [LF]
       ++ join (linesep os) (pieces s w (count (length s) w)))
  = Some (__init__ h s).
Proof.
  intros Hw Hne Hpure Hh.
  set (chunks := pieces s w (count (length s) w)).
  destruct (pieces_wrapped s w Hw) as [Hcat _]. fold chunks in Hcat.
  assert (Hgood : Forall (fun c => c <> [] /\ unbroken c) chunks).
  { pose proof (pieces_nonempty s w Hw) as H1. fold chunks in H1.
    pose proof (pure_unbroken _ Hpure) as H2.
    unfold unbroken in H2. rewrite <- Hcat in H2.
    apply Forall_concat in H2.
    apply Forall_forall. intros c Hin. split.
    - exact (proj1 (Forall_forall _ _) H1 c Hin).
    - exact (proj1 (Forall_forall _ _) H2 c Hin). }
  destruct chunks as [|x rest] eqn:Ech.
  - simpl in Hcat. congruence.
  - rewrite (validate_fasta_lines _ (">"%char :: h) x rest)
      by (apply splitlines_rendering; [assumption|discriminate|assumption]).
    change (startswith (">"%char :: h) ENTRY_DELIM_CHAR) with true.
    cbv iota. rewrite Hcat, slice_from1_cons.
    apply alphabet_ok_spec in Hpure. rewrite Hpure. reflexivity.
Qed.

(** X6.  Rendering is stable under the parser: a record the parser returned
    with residues that are not empty is rendered, on either platform, as a
    text on which the parser returns that same record. *)
Theorem parse_render_parse (os : platform) (entry : str) (r : Sequence)
  (Hacc : validate_fasta entry = Some r)
  (Hne : sequence r <> []) :
  exists t, _to_fasta os r = Ok t /\ validate_fasta t = Some r.
Proof.
  destruct (accepted_record entry r Hacc) as [Hcache [_ [Hh [_ Hp]]]].
  eexists. split; [apply to_fasta_ok|].
  rewrite rendering_parses; [|lia|exact Hne|right; exact Hp|exact Hh].
  destruct r as [h s c]. simpl in Hcache. subst c. reflexivity.
Qed.

Lemma parse_render_parse_witness :
  exists t,
    _to_fasta Windows (__init__ (lit "h") (lit "ACDEF")) = Ok t
    /\ validate_fasta t = Some (__init__ (lit "h") (lit "ACDEF")).
Proof.
  apply (parse_render_parse Windows
           (lit ">h" ++ [CR] ++ lit "AC" ++ [LF; LF] ++ lit "DEF")).
  - reflexivity.
  - discriminate.
Defined.

(** ** A line feed after the text *)

Lemma scan_lines_snoc_LF (n : nat) :
  forall s cur,
    (length s <= n)%nat ->
    exists extra,
      (extra = [] \/ extra = [[]])
      /\ scan_lines cur (s ++ [LF]) = scan_lines cur s ++ extra.
Proof.
  induction n as [|n IH]; intros s cur Hlen.
  - destruct s; [|simpl in Hlen; lia]. exists []. split; [left|]; reflexivity.
  - destruct s as [|c s'].
    + exists []. split; [left|]; reflexivity.
    + simpl in Hlen. simpl app. simpl scan_lines.
      destruct (is_linebreak c) eqn:Hb.
      * destruct s' as [|d s''].
        -- cbn [app]. cbv iota.
           destruct (Ascii.eqb c CR).
           ++ exists []. split; [left|]; reflexivity.
           ++ exists [[]]. split; [right|]; reflexivity.
        -- cbn [app].
           destruct (Ascii.eqb c CR && Ascii.eqb d LF).
           ++ destruct s'' as [|e s''].
              ** exists [[]]. split; [right|]; reflexivity.
              ** destruct (IH (e :: s'') [] ltac:(simpl in Hlen |- *; lia))
                   as [extra [Hex E]].
                 exists extra. split; [exact Hex|].
                 cbn [app] in E |- *. rewrite E. reflexivity.
           ++ destruct (IH (d :: s'') [] ltac:(lia)) as [extra [Hex E]].
              exists extra. split; [exact Hex|].
              cbn [app] in E |- *. rewrite E. reflexivity.
      * apply IH. lia.
Qed.

Lemma splitlines_snoc_LF (s : str) :
  exists extra,
    (extra = [] \/ extra = [[]])
    /\ splitlines (s ++ [LF]) = splitlines s ++ extra.
Proof.
  destruct s as [|c s].
  - exists [[]]. split; [right|]; reflexivity.
  - apply (scan_lines_snoc_LF (length (c :: s))). lia.
Qed.

(** X7.  A line feed put after a text the parser accepts changes nothing:
    the parser returns the same record.  (After a text it does not accept
    it can: a header line alone is not a record, and is one, with no
    residues, once a line feed follows its own.) *)
Theorem validate_fasta_trailing_LF (entry : str) (r : Sequence)
  (Hacc : validate_fasta entry = Some r) :
  validate_fasta (entry ++ [LF]) = Some r
  /\ validate_fasta (lit ">h" ++ [LF]) = None
  /\ validate_fasta ((lit ">h" ++ [LF]) ++ [LF]) = Some (__init__ (lit "h") []).
Proof.
  split; [|split; reflexivity].
  destruct (splitlines entry) as [|line0 [|line1 rest]] eqn:Hs.
  - rewrite validate_fasta_short in Hacc by (rewrite Hs; simpl; lia).
    discriminate Hacc.
  - rewrite validate_fasta_short in Hacc by (rewrite Hs; simpl; lia).
    discriminate Hacc.
  - destruct (splitlines_snoc_LF entry) as [extra [Hex E]].
    rewrite Hs in E. simpl app in E.
    rewrite (validate_fasta_lines _ _ _ _ E).
    rewrite (validate_fasta_lines _ _ _ _ Hs) in Hacc.
    assert (Hc : concat (line1 :: rest ++ extra) = concat (line1 :: rest)).
    { simpl. rewrite concat_app.
      destruct Hex as [-> | ->]; simpl; rewrite app_nil_r; reflexivity. }
    rewrite Hc. exact Hacc.
Qed.

Lemma validate_fasta_trailing_LF_witness :
  validate_fasta ((lit ">h" ++ [LF] ++ lit "ACD" ++ [CR]) ++ [LF])
  = Some (__init__ (lit "h") (lit "ACD")).
Proof.
  apply (validate_fasta_trailing_LF (lit ">h" ++ [LF] ++ lit "ACD" ++ [CR])).
  reflexivity.
Defined.

(** ** Reading a file of records *)

Lemma split_delim (text : str) :
  split text ENTRY_DELIM_CHAR = Ok (split_scan ENTRY_DELIM_CHAR 0 [] text).
Proof. reflexivity. Qed.

Lemma split_scan_cons (cur : str) (c : ascii) (s : str) :
  split_scan ENTRY_DELIM_CHAR 0 cur (c :: s)
  = if Ascii.eqb ">" c
    then cur :: split_scan ENTRY_DELIM_CHAR 0 [] s
    else split_scan ENTRY_DELIM_CHAR 0 (cur ++ [c]) s.
Proof.
  change (split_scan ENTRY_DELIM_CHAR 0 cur (c :: s))
    with (if Ascii.eqb ">" c && true
          then cur :: split_scan ENTRY_DELIM_CHAR 0 [] s
          else split_scan ENTRY_DELIM_CHAR 0 (cur ++ [c]) s).
  rewrite andb_true_r. reflexivity.
Qed.

(** A stretch without '>' goes into the piece being read. *)
Lemma split_scan_prefix (b : str) :
  ~ In ">"%char b ->
  forall cur rest,
    split_scan ENTRY_DELIM_CHAR 0 cur (b ++ rest)
    = split_scan ENTRY_DELIM_CHAR 0 (cur ++ b) rest.
Proof.
  induction b as [|c b IH]; intros Hno cur rest.
  - rewrite app_nil_r. reflexivity.
  - simpl app. rewrite split_scan_cons.
    destruct (Ascii.eqb_spec ">" c) as [<-|_].
    + exfalso. apply Hno. left. reflexivity.
    + rewrite IH by (intros H; apply Hno; right; exact H).
      rewrite <- app_assoc. reflexivity.
Qed.

Lemma split_scan_app (a b : str) :
  forall cur,
    split_scan ENTRY_DELIM_CHAR 0 cur (a ++ ">"%char :: b)
    = split_scan ENTRY_DELIM_CHAR 0 cur a
        ++ split_scan ENTRY_DELIM_CHAR 0 [] b.
Proof.
  induction a as [|c a IH]; intros cur.
  - cbn [app]. rewrite split_scan_cons. reflexivity.
  - cbn [app]. rewrite !split_scan_cons.
    destruct (Ascii.eqb ">" c); rewrite IH; reflexivity.
Qed.

Lemma read_blocks (text : str) :
  FastaFile_read text
  = Ok (map (fun f => validate_fasta (ENTRY_DELIM_CHAR ++ f))
          (filter truthy (split_scan ENTRY_DELIM_CHAR 0 [] text))).
Proof. reflexivity. Qed.

(** X8.  Reading never raises and goes record by record: the results for a
    text with a '>' in it are those for the part before that '>' followed
    by those for the part after it.  In particular a '>' at the very start
    adds nothing, and an empty text gives no result. *)
Theorem read_appends (a b : str) :
  exists ra rb,
    FastaFile_read a = Ok ra
    /\ FastaFile_read b = Ok rb
    /\ FastaFile_read (a ++ ">"%char :: b) = Ok (ra ++ rb)
    /\ FastaFile_read (">"%char :: b) = Ok rb
    /\ FastaFile_read [] = Ok [].
Proof.
  eexists. eexists.
  split; [apply read_blocks|]. split; [apply read_blocks|]. split.
  - rewrite read_blocks, split_scan_app, filter_app, map_app. reflexivity.
  - split; [|reflexivity].
    rewrite read_blocks, split_scan_cons. reflexivity.
Qed.

Lemma read_appends_witness :
  FastaFile_read (lit ">a" ++ [LF] ++ lit "AC" ++ [LF] ++ lit ">b>c" ++ [LF]
                    ++ lit "GG")
  = Ok [Some (__init__ (lit "a") (lit "AC")); None;
        Some (__init__ (lit "c") (lit "GG"))].
Proof.
  destruct (read_appends (lit ">a" ++ [LF] ++ lit "AC" ++ [LF] ++ lit ">b")
              (lit "c" ++ [LF] ++ lit "GG"))
    as [ra [rb [Ha [Hb [Hab _]]]]].
  change (lit ">a" ++ [LF] ++ lit "AC" ++ [LF] ++ lit ">b>c" ++ [LF]
            ++ lit "GG")
    with ((lit ">a" ++ [LF] ++ lit "AC" ++ [LF] ++ lit ">b")
            ++ ">"%char :: (lit "c" ++ [LF] ++ lit "GG")).
  rewrite Hab. injection Ha as <-. injection Hb as <-. reflexivity.
Defined.

(** X9.  A text without any '>' that is not empty is read as one block with
    the '>' put before it: the single result is what the parser returns on
    that.  So the text of a record that lacks its leading '>' is read as
    the record. *)
Theorem read_single_block (t : str)
  (Hno : ~ In ">"%char t) (Hne : t <> []) :
  FastaFile_read t = Ok [validate_fasta (">"%char :: t)].
Proof.
  rewrite read_blocks.
  rewrite <- (app_nil_r t) at 1.
  rewrite split_scan_prefix by exact Hno.
  destruct t as [|c t]; [contradiction|]. reflexivity.
Qed.

Lemma read_single_block_witness :
  FastaFile_read (lit "h" ++ [LF] ++ lit "ACD")
  = Ok [Some (__init__ (lit "h") (lit "ACD"))].
Proof.
  rewrite (read_single_block (lit "h" ++ [LF] ++ lit "ACD")).
  - reflexivity.
  - simpl. intros H.
    repeat (destruct H as [H|H]; [discriminate H|]). exact H.
  - discriminate.
Defined.

(** ** Writing a file of records *)

Lemma fasta_returns (os : platform) (r : Sequence) :
  exists t,
    fasta os r
    = (Ok t, {| header := header r; sequence := sequence r;
                _fasta := Some t |}).
Proof.
  destruct r as [h s [c|]]; unfold fasta; cbn [_fasta header sequence].
  - exists c. reflexivity.
  - rewrite to_fasta_ok. eexists. reflexivity.
Qed.

Lemma fasta_fresh (os : platform) (r : Sequence) :
  _fasta r = None ->
  fst (fasta os r)
  = Ok (ENTRY_DELIM_CHAR ++ header r ++ [LF]
          ++ join (linesep os) (pieces (sequence r) 80
                                  (count (length (sequence r)) 80))).
Proof.
  intros H. unfold fasta. rewrite H, to_fasta_ok. reflexivity.
Qed.

Lemma fasta_lines_spec (os : platform) (rs : list Sequence) :
  exists texts,
    Forall2 (fun r t =>
               fasta os r
               = (Ok t, {| header := header r; sequence := sequence r;
                           _fasta := Some t |})) rs texts
    /\ fasta_lines os rs
       = (Ok (map (fun t => t ++ [LF]) texts),
          map (fun r => snd (fasta os r)) rs).
Proof.
  induction rs as [|r rs [texts [Hall IH]]].
  - exists []. split; [constructor|reflexivity].
  - destruct (fasta_returns os r) as [t Ht].
    exists (t :: texts). split.
    + constructor; [exact Ht|exact Hall].
    + cbn [fasta_lines map]. rewrite Ht, IH. reflexivity.
Qed.

(** X10.  The text that [write] hands to [writelines], as a function of the
    records: building it raises nothing, and it is, for the records in
    their order, what the getter returns for each followed by a line feed;
    every record is left with that text in its cache and with its header
    and residues; a single record is written as the list of that record,
    and nothing is written for no record. *)
Theorem write_text (os : platform) (rs : list Sequence) :
  (exists texts,
      Forall2 (fun r t =>
                 fasta os r
                 = (Ok t, {| header := header r; sequence := sequence r;
                             _fasta := Some t |})) rs texts
      /\ FastaFile_write os (inr rs)
         = (Ok (concat (map (fun t => t ++ [LF]) texts)),
            map (fun r => snd (fasta os r)) rs))
  /\ (forall one,
         FastaFile_write os (inl one) = FastaFile_write os (inr [one]))
  /\ FastaFile_write os (inr []) = (Ok [], []).
Proof.
  split; [|split; reflexivity].
  destruct (fasta_lines_spec os rs) as [texts [Hall E]].
  exists texts. split; [exact Hall|].
  unfold FastaFile_write. rewrite E. reflexivity.
Qed.

Lemma write_text_witness :
  FastaFile_write Posix
    (inr [__init__ (lit "test") (lit "ACD"); __init__ (lit "test") (lit "ACD")])
  = (Ok (lit ">test" ++ [LF] ++ lit "ACD" ++ [LF]
           ++ lit ">test" ++ [LF] ++ lit "ACD" ++ [LF]),
     map (fun r => snd (fasta Posix r))
       [__init__ (lit "test") (lit "ACD"); __init__ (lit "test") (lit "ACD")]).
Proof.
  destruct (write_text Posix
              [__init__ (lit "test") (lit "ACD");
               __init__ (lit "test") (lit "ACD")])
    as [[texts [Hall E]] _].
  rewrite E.
  inversion Hall as [|? t1 ? ? H1 Hall1]; subst.
  inversion Hall1 as [|? t2 ? ? H2 Hall2]; subst.
  inversion Hall2; subst.
  injection H1 as <-. injection H2 as <-. reflexivity.
Defined.

(** ** Writing, then reading *)

(** Text mode leaves a stretch without a line boundary as it is, on the way
    out and on the way back. *)
Lemma text_mode_unbroken (os : platform) (x : str) :
  unbroken x ->
  forall y,
    text_mode_read (text_mode_write os (x ++ y))
    = x ++ text_mode_read (text_mode_write os y).
Proof.
  induction 1 as [|c x Hc _ IH]; intros y.
  - reflexivity.
  - destruct (not_linebreak_not_LF_CR c Hc) as [HLF HCR].
    cbn [app]. unfold text_mode_write. cbn [flat_map].
    rewrite HLF. cbn [app text_mode_read]. rewrite HCR.
    f_equal. apply IH.
Qed.

Lemma text_mode_LF (os : platform) (y : str) :
  text_mode_read (text_mode_write os (LF :: y))
  = LF :: text_mode_read (text_mode_write os y).
Proof. destruct os; reflexivity. Qed.

Lemma text_mode_linesep (os : platform) (y : str) :
  text_mode_read (text_mode_write os (linesep os ++ y))
  = linesep_read_back os ++ text_mode_read (text_mode_write os y).
Proof. destruct os; reflexivity. Qed.

Lemma text_mode_join (os : platform) (chunks : list str) :
  Forall unbroken chunks ->
  forall z,
    text_mode_read (text_mode_write os (join (linesep os) chunks ++ z))
    = join (linesep_read_back os) chunks
        ++ text_mode_read (text_mode_write os z).
Proof.
  induction 1 as [|x chunks Hx Hrest IH]; intros z.
  - reflexivity.
  - destruct chunks as [|y chunks].
    + cbn [join]. apply text_mode_unbroken. exact Hx.
    + rewrite !join_cons_cons, <- !app_assoc.
      rewrite text_mode_unbroken by exact Hx.
      rewrite text_mode_linesep, IH. reflexivity.
Qed.

(** The lines of the residue part of a record read back: they may have
    empty lines among them, and put together they are the chunks put
    together. *)
Lemma splitlines_read_back (os : platform) (chunks : list str) :
  Forall unbroken chunks ->
  exists line rest,
    splitlines (join (linesep_read_back os) chunks ++ [LF]) = line :: rest
    /\ concat (line :: rest) = concat chunks.
Proof.
  induction 1 as [|x chunks Hx Hrest IH].
  - exists [], []. split; reflexivity.
  - destruct chunks as [|y chunks].
    + exists x, []. split; [|reflexivity].
      cbn [join].
      rewrite splitlines_boundary;
        [reflexivity|exact Hx|reflexivity|discriminate].
    + destruct IH as [line [rest [E Hc]]].
      rewrite join_cons_cons, <- !app_assoc.
      destruct os.
      * exists x, (line :: rest). split.
        -- change (linesep_read_back Posix) with [LF] in *.
           cbn [app].
           rewrite splitlines_boundary;
             [|exact Hx|reflexivity|discriminate].
           rewrite E. reflexivity.
        -- cbn [concat] in *. rewrite Hc. reflexivity.
      * exists x, ([] :: line :: rest). split.
        -- change (linesep_read_back Windows) with [LF; LF] in *.
           cbn [app].
           rewrite splitlines_boundary;
             [|exact Hx|reflexivity|discriminate].
           match goal with
           | |- context [splitlines (LF :: ?t)] =>
               pose proof (splitlines_boundary [] LF t
                             ltac:(constructor) eq_refl
                             ltac:(discriminate)) as Hblank
           end.
           cbn [app] in Hblank. rewrite Hblank, E. reflexivity.
        -- cbn [concat app] in *. rewrite Hc. reflexivity.
Qed.

Lemma in_join (c : ascii) (sep : str) (items : list str) :
  In c (join sep items) -> In c sep \/ In c (concat items).
Proof.
  induction items as [|x [|y items] IH]; intros H.
  - contradiction.
  - right. simpl in *. rewrite app_nil_r. exact H.
  - rewrite join_cons_cons in H. cbn [concat].
    apply in_app_or in H. destruct H as [H|H].
    + right. apply in_or_app. left. exact H.
    + apply in_app_or in H. destruct H as [H|H]; [left; exact H|].
      destruct (IH H) as [Hs|Hc]; [left; exact Hs|].
      right. apply in_or_app. right. exact Hc.
Qed.

Lemma pure_no_delim (s : str) :
  pure nucleic_alphabet s \/ pure amino_alphabet s -> ~ In ">"%char s.
Proof.
  unfold pure. rewrite !Forall_forall. intros Hp Hin.
  destruct Hp as [Hp|Hp]; specialize (Hp _ Hin); apply all_in_spec in Hp;
    discriminate Hp.
Qed.

Lemma pieces_unbroken (s : str) (w : nat) :
  (0 < w)%nat -> unbroken s ->
  Forall unbroken (pieces s w (count (length s) w)).
Proof.
  intros Hw Hs. destruct (pieces_wrapped s w Hw) as [Hcat _].
  unfold unbroken in Hs. rewrite <- Hcat in Hs.
  apply Forall_concat in Hs. exact Hs.
Qed.

Lemma writable_chunks (r : Sequence) :
  writable r ->
  Forall unbroken (pieces (sequence r) 80 (count (length (sequence r)) 80)).
Proof.
  intros [_ [_ [_ Hp]]]. apply pieces_unbroken; [lia|].
  apply pure_unbroken. exact Hp.
Qed.

(** One record through text mode. *)
Lemma record_read_back (os : platform) (r : Sequence) (rest : str) :
  writable r ->
  text_mode_read (text_mode_write os ((rendering os r ++ [LF]) ++ rest))
  = (">"%char :: block_read_back os r)
      ++ text_mode_read (text_mode_write os rest).
Proof.
  intros Hr. pose proof (writable_chunks r Hr) as Hch.
  destruct Hr as [_ [Hh _]].
  unfold rendering, block_read_back.
  change (ENTRY_DELIM_CHAR ++ header r ++ [LF] ++ ?j)
    with ((">"%char :: header r) ++ LF :: j).
  rewrite <- !app_assoc. cbn [app].
  change (">"%char :: header r ++ ?t) with ((">"%char :: header r) ++ t).
  rewrite text_mode_unbroken by (constructor; [reflexivity|exact Hh]).
  rewrite text_mode_LF, text_mode_join by exact Hch.
  rewrite text_mode_LF.
  cbn [app]. repeat (rewrite <- app_assoc; cbn [app]). reflexivity.
Qed.

Lemma records_read_back (os : platform) (rs : list Sequence) :
  Forall writable rs ->
  text_mode_read
    (text_mode_write os (concat (map (fun r => rendering os r ++ [LF]) rs)))
  = concat (map (fun r => ">"%char :: block_read_back os r) rs).
Proof.
  induction 1 as [|r rs Hr _ IH].
  - reflexivity.
  - cbn [map concat]. rewrite record_read_back by exact Hr.
    rewrite IH. reflexivity.
Qed.

Lemma split_scan_blocks (bs : list str) :
  Forall (fun b => ~ In ">"%char b) bs ->
  forall cur,
    split_scan ENTRY_DELIM_CHAR 0 cur
      (concat (map (fun b => ">"%char :: b) bs))
    = cur :: bs.
Proof.
  induction 1 as [|b bs Hb _ IH]; intros cur.
  - reflexivity.
  - cbn [map concat app]. rewrite split_scan_cons.
    change (Ascii.eqb ">" ">") with true. cbv iota.
    rewrite split_scan_prefix by exact Hb.
    rewrite IH. reflexivity.
Qed.

Lemma block_read_back_no_delim (os : platform) (r : Sequence) :
  writable r -> ~ In ">"%char (block_read_back os r).
Proof.
  intros [_ [_ [Hh Hp]]] Hin. unfold block_read_back in Hin.
  apply in_app_or in Hin. destruct Hin as [Hin|Hin]; [exact (Hh Hin)|].
  cbn [app] in Hin. destruct Hin as [Hin|Hin]; [discriminate Hin|].
  apply in_app_or in Hin. destruct Hin as [Hin|Hin].
  - apply in_join in Hin. destruct Hin as [Hin|Hin].
    + destruct os; simpl in Hin;
        repeat (destruct Hin as [Hin|Hin]; [discriminate Hin|]); exact Hin.
    + destruct (pieces_wrapped (sequence r) 80 ltac:(lia)) as [Hcat _].
      rewrite Hcat in Hin. exact (pure_no_delim _ Hp Hin).
  - simpl in Hin. destruct Hin as [Hin|Hin]; [discriminate Hin|exact Hin].
Qed.

Lemma block_read_back_truthy (os : platform) (r : Sequence) :
  truthy (block_read_back os r) = true.
Proof. unfold block_read_back. destruct (header r); reflexivity. Qed.

(** The parser on a block read back. *)
Lemma block_read_back_parses (os : platform) (r : Sequence) :
  writable r ->
  validate_fasta (ENTRY_DELIM_CHAR ++ block_read_back os r)
  = Some (__init__ (header r) (sequence r)).
Proof.
  intros Hr. pose proof (writable_chunks r Hr) as Hch.
  destruct Hr as [_ [Hh [_ Hp]]].
  destruct (splitlines_read_back os _ Hch) as [line [rest [E Hc]]].
  destruct (pieces_wrapped (sequence r) 80 ltac:(lia)) as [Hcat _].
  rewrite Hcat in Hc.
  assert (Hs : splitlines (ENTRY_DELIM_CHAR ++ block_read_back os r)
               = (">"%char :: header r) :: line :: rest).
  { unfold block_read_back.
    change (ENTRY_DELIM_CHAR ++ header r ++ [LF] ++ ?t)
      with ((">"%char :: header r) ++ LF :: t).
    rewrite splitlines_boundary;
      [|constructor; [reflexivity|exact Hh]|reflexivity|discriminate].
    rewrite E. reflexivity. }
  rewrite (validate_fasta_lines _ _ _ _ Hs).
  change (startswith (">"%char :: header r) ENTRY_DELIM_CHAR) with true.
  cbv iota. rewrite Hc, slice_from1_cons.
  apply alphabet_ok_spec in Hp. rewrite Hp. reflexivity.
Qed.

Lemma fasta_lines_fresh (os : platform) (rs : list Sequence) :
  Forall writable rs ->
  fst (fasta_lines os rs) = Ok (map (fun r => rendering os r ++ [LF]) rs).
Proof.
  induction 1 as [|r rs [Hr _] _ IH].
  - reflexivity.
  - cbn [fasta_lines]. pose proof (fasta_fresh os r Hr) as Hf.
    fold (rendering os r) in Hf.
    destruct (fasta os r) as [out r']. cbn [fst] in Hf. subst out.
    destruct (fasta_lines os rs) as [outs rs']. cbn [fst] in IH. subst outs.
    reflexivity.
Qed.

(** X11.  What is written is read back.  For records with nothing cached,
    a header holding no line boundary and no '>', and residues of one of
    the alphabets (empty residues among them), on either platform: the
    text that [write] writes, passed through text mode on the way to the
    file and on the way back, is read as these records, in their order,
    each with its header and its residues. *)
Theorem write_then_read (os : platform) (rs : list Sequence)
  (Hrs : Forall writable rs) :
  exists text after,
    FastaFile_write os (inr rs) = (Ok text, after)
    /\ FastaFile_read (text_mode_read (text_mode_write os text))
       = Ok (map (fun r => Some (__init__ (header r) (sequence r))) rs).
Proof.
  pose proof (fasta_lines_fresh os rs Hrs) as Hl.
  unfold FastaFile_write.
  destruct (fasta_lines os rs) as [out after]. cbn [fst] in Hl. subst out.
  eexists. exists after. split; [reflexivity|].
  rewrite records_read_back by exact Hrs.
  rewrite read_blocks.
  rewrite <- (map_map (block_read_back os) (fun b => ">"%char :: b)).
  rewrite split_scan_blocks.
  - cbn [filter truthy]. f_equal.
    induction Hrs as [|r rs Hr _ IH]; [reflexivity|].
    cbn [map filter]. rewrite block_read_back_truthy.
    cbn [map]. rewrite block_read_back_parses by exact Hr.
    f_equal. exact IH.
  - apply Forall_map. eapply Forall_impl; [|exact Hrs].
    intros r Hr. apply block_read_back_no_delim. exact Hr.
Qed.

Lemma write_then_read_witness :
  exists text after,
    FastaFile_write Windows
      (inr [__init__ (lit "a b") (repeat "A"%char 85); __init__ (lit "c") []])
    = (Ok text, after)
    /\ FastaFile_read (text_mode_read (text_mode_write Windows text))
       = Ok [Some (__init__ (lit "a b") (repeat "A"%char 85));
             Some (__init__ (lit "c") [])].
Proof.
  apply (write_then_read Windows
           [__init__ (lit "a b") (repeat "A"%char 85); __init__ (lit "c") []]).
  repeat constructor; try (intros H; simpl in H;
    repeat (destruct H as [H|H]; [discriminate H|]); exact H).
Defined.

(** ** Which renderings the parser accepts *)

(** X12.  For a record whose header and residues hold no line boundary,
    the parser accepts the text [_to_fasta] returns exactly when the
    residues are not empty and are of one of the alphabets, and it then
    returns the record's header and residues: rendering checks nothing,
    and the parser turns down what the constructor let in. *)
Theorem rendering_accepted_iff (os : platform) (r : Sequence)
  (Hh : unbroken (header r)) (Hs : unbroken (sequence r)) :
  exists t,
    _to_fasta os r = Ok t
    /\ validate_fasta t
       = if truthy (sequence r)
            && (validate_sequence (sequence r) NUCLEIC_DELCHARS
                || validate_sequence (sequence r) AA_DELCHARS)
         then Some (__init__ (header r) (sequence r))
         else None.
Proof.
  eexists. split; [apply to_fasta_ok|].
  destruct (sequence r) as [|c s] eqn:Es.
  - cbn [length count pieces seq map join truthy andb].
    apply validate_fasta_short.
    change (ENTRY_DELIM_CHAR ++ header r ++ [LF] ++ [])
      with ((">"%char :: header r) ++ LF :: []).
    rewrite splitlines_boundary;
      [|constructor; [reflexivity|exact Hh]|reflexivity|discriminate].
    simpl. lia.
  - assert (Hne : sequence r <> []) by (rewrite Es; discriminate).
    cbn [truthy andb]. rewrite <- Es in *. clear Es c s.
    set (chunks := pieces (sequence r) 80 (count (length (sequence r)) 80)).
    destruct (pieces_wrapped (sequence r) 80 ltac:(lia)) as [Hcat _].
    fold chunks in Hcat.
    assert (Hgood : Forall (fun c => c <> [] /\ unbroken c) chunks).
    { pose proof (pieces_nonempty (sequence r) 80 ltac:(lia)) as H1.
      pose proof (pieces_unbroken (sequence r) 80 ltac:(lia) Hs) as H2.
      fold chunks in H1, H2.
      apply Forall_forall. intros x Hin. split.
      - exact (proj1 (Forall_forall _ _) H1 x Hin).
      - exact (proj1 (Forall_forall _ _) H2 x Hin). }
    destruct chunks as [|x rest] eqn:Ech.
    + simpl in Hcat. congruence.
    + rewrite (validate_fasta_lines _ (">"%char :: header r) x rest)
        by (apply splitlines_rendering; [assumption|discriminate|assumption]).
      change (startswith (">"%char :: header r) ENTRY_DELIM_CHAR) with true.
      cbv iota. rewrite Hcat, slice_from1_cons. reflexivity.
Qed.

Lemma rendering_accepted_iff_witness :
  exists t,
    _to_fasta Posix (__init__ (lit "h") (lit "ACGJ")) = Ok t
    /\ validate_fasta t = None.
Proof.
  assert (Hu : forall s, forallb (fun c => negb (is_linebreak c)) s = true ->
                         unbroken s).
  { intros s H. apply Forall_forall. intros c Hc.
    rewrite forallb_forall in H. specialize (H c Hc).
    destruct (is_linebreak c); [discriminate H|reflexivity]. }
  exact (rendering_accepted_iff Posix (__init__ (lit "h") (lit "ACGJ"))
           (Hu (lit "h") eq_refl) (Hu (lit "ACGJ") eq_refl)).
Defined.
